(** * All-to-all exchange parameter blocks (namespace [trt_llm])

    The header under verification declares the constant
    [MAX_ALL_TO_ALL_BLOCKS] and the two parameter blocks [All2AllParams]
    and [All2AllPlanParams].  The kernels that consume them are declared
    elsewhere; their behaviour is modelled from the specification and every
    such definition says so in its documentation. *)

From Stdlib Require Import ZArith List Bool Lia.
Import ListNotations.
Local Open Scope Z_scope.

(** ** Machine integers *)

(** Conversion to [uint32_t]: the value is reduced modulo [2^32]. *)
Definition to_uint32 (z : Z) : Z := z mod 2 ^ 32.

Definition is_uint32 (z : Z) : Prop := 0 <= z < 2 ^ 32.

Definition is_int64 (z : Z) : Prop := - 2 ^ 63 <= z < 2 ^ 63.

(** ** Constants and parameter blocks *)

(** [constexpr size_t MAX_ALL_TO_ALL_BLOCKS = 64;] *)
Definition MAX_ALL_TO_ALL_BLOCKS : Z := 64.

(** Device pointers whose target lives in the shared store are kept as
    opaque addresses. *)
Definition ptr : Type := Z.

(** [struct All2AllParams]. The three per-peer pointer arrays have
    [MAX_RANKS_PER_NODE] slots each. *)
Module All2AllParams.

Record t : Type := mk {
  elts_size : Z;
  elts_per_block : Z;
  elts_per_block_per_round : Z;
  round_count : Z;
  elts_per_round : Z;
  rank : Z;
  local_rank : Z;
  ranks_per_node : Z;
  barrier_flag : Z;
  buffer_meta_ptrs : list ptr;
  peer_barrier_ptrs_in : list ptr;
  peer_barrier_ptrs_out : list ptr;
  peer_comm_buffer_ptrs : ptr;
  local_output_buffer_ptr : ptr;
  local_input_buffer_ptr : ptr;
  plan_meta_ptr : ptr;
  is_capturing : bool;
  block_size : Z;
  output_elts_total : Z;
  input_elts_total : Z
}.

(** Assignment of a generation counter to the [uint32_t] field
    [barrier_flag]. *)
Definition set_barrier_flag (p : t) (generation : Z) : t :=
  mk (elts_size p) (elts_per_block p) (elts_per_block_per_round p)
     (round_count p) (elts_per_round p) (rank p) (local_rank p)
     (ranks_per_node p) (to_uint32 generation) (buffer_meta_ptrs p)
     (peer_barrier_ptrs_in p) (peer_barrier_ptrs_out p)
     (peer_comm_buffer_ptrs p) (local_output_buffer_ptr p)
     (local_input_buffer_ptr p) (plan_meta_ptr p) (is_capturing p)
     (block_size p) (output_elts_total p) (input_elts_total p).

End All2AllParams.

(** [struct All2AllPlanParams]. The four [int64_t*] split arrays are local
    to the rank; each is kept as the contents of the array it points to,
    indexed from [0]. *)
Module All2AllPlanParams.

Record t : Type := mk {
  elts_size : Z;
  rank : Z;
  local_rank : Z;
  ranks_per_node : Z;
  barrier_flag : Z;
  buffer_meta_ptrs : list ptr;
  peer_barrier_ptrs_in : list ptr;
  peer_barrier_ptrs_out : list ptr;
  peer_comm_buffer_ptrs : ptr;
  output_split_sizes : Z -> Z;
  input_split_sizes : Z -> Z;
  output_split_offsets : Z -> Z;
  input_split_offsets : Z -> Z;
  plan_meta_ptr : ptr;
  block_size : Z;
  output_elts_total : Z;
  input_elts_total : Z
}.

Definition set_barrier_flag (p : t) (generation : Z) : t :=
  mk (elts_size p) (rank p) (local_rank p) (ranks_per_node p)
     (to_uint32 generation) (buffer_meta_ptrs p) (peer_barrier_ptrs_in p)
     (peer_barrier_ptrs_out p) (peer_comm_buffer_ptrs p)
     (output_split_sizes p) (input_split_sizes p) (output_split_offsets p)
     (input_split_offsets p) (plan_meta_ptr p) (block_size p)
     (output_elts_total p) (input_elts_total p).

(** Writing the two offset arrays through their pointers. *)
Definition set_split_offsets (p : t) (out_offs in_offs : Z -> Z) : t :=
  mk (elts_size p) (rank p) (local_rank p) (ranks_per_node p)
     (barrier_flag p) (buffer_meta_ptrs p) (peer_barrier_ptrs_in p)
     (peer_barrier_ptrs_out p) (peer_comm_buffer_ptrs p)
     (output_split_sizes p) (input_split_sizes p) out_offs in_offs
     (plan_meta_ptr p) (block_size p) (output_elts_total p)
     (input_elts_total p).

End All2AllPlanParams.

(** The value sets documented next to the two [block_size] fields. *)
Definition exchange_block_sizes : list Z := [572; 512].

Definition plan_block_sizes : list Z := [16 * 572; 16 * 512].

(** ** Shared device store *)

(** The regions the pointer fields designate, one per rank. [barrier o s r]
    is the slot of owner [o] that source rank [s] raises for slot index
    [r]; the same cell is [peer_barrier_ptrs_out] seen from [s] and
    [peer_barrier_ptrs_in] seen from [o]. *)
Record Memory : Type := mkMemory {
  buffer_meta : Z -> Z -> Z;
  barrier : Z -> Z -> Z -> Z;
  comm_buffer : Z -> Z -> Z;
  plan_meta : Z -> Z -> Z;
  local_output : Z -> Z -> Z;
  local_input : Z -> Z -> Z
}.

Definition upd {A : Type} (f : Z -> A) (k : Z) (v : A) : Z -> A :=
  fun x => if x =? k then v else f x.

Definition set_buffer_meta (m : Memory) (v : Z -> Z -> Z) : Memory :=
  mkMemory v (barrier m) (comm_buffer m) (plan_meta m) (local_output m)
           (local_input m).

Definition set_barrier (m : Memory) (v : Z -> Z -> Z -> Z) : Memory :=
  mkMemory (buffer_meta m) v (comm_buffer m) (plan_meta m) (local_output m)
           (local_input m).

Definition set_comm_buffer (m : Memory) (v : Z -> Z -> Z) : Memory :=
  mkMemory (buffer_meta m) (barrier m) v (plan_meta m) (local_output m)
           (local_input m).

Definition set_plan_meta (m : Memory) (v : Z -> Z -> Z) : Memory :=
  mkMemory (buffer_meta m) (barrier m) (comm_buffer m) v (local_output m)
           (local_input m).

Definition set_local_output (m : Memory) (v : Z -> Z -> Z) : Memory :=
  mkMemory (buffer_meta m) (barrier m) (comm_buffer m) (plan_meta m) v
           (local_input m).

(** Indices [0, n). *)
Definition range (n : Z) : list Z := map Z.of_nat (seq 0 (Z.to_nat n)).

(** Sum of a list, as the specification writes [sum(...)]. *)
Definition Zsum (l : list Z) : Z := fold_right Z.add 0 l.

(** Exclusive prefix sum at index [i], in the specification's words: the
    sum of the entries before [i]. *)
Definition prefix_sum (sizes : Z -> Z) (i : Z) : Z := Zsum (map sizes (range i)).

(** ** Plan stage *)

Inductive plan_error : Type :=
| ConfigurationError
| CapacityError.

(** Modelled from the spec: the accumulation loop of the plan kernel (the
    kernel is not under src/). It adds the [n] entries of a split-size
    array, starting at index [i] with running total [acc]. *)
Fixpoint sum_loop (sizes : Z -> Z) (n : nat) (i acc : Z) : Z :=
  match n with
  | O => acc
  | S n' => sum_loop sizes n' (i + 1) (acc + sizes i)
  end.

(** Modelled from the spec: the offset loop of the plan kernel (not under
    src/): [offsets[i] = acc; acc += sizes[i]] for [n] consecutive
    indices. *)
Fixpoint scan_loop (sizes offsets : Z -> Z) (n : nat) (i acc : Z) : Z -> Z :=
  match n with
  | O => offsets
  | S n' => scan_loop sizes (upd offsets i acc) n' (i + 1) (acc + sizes i)
  end.

(** The two loops run over the [n] entries of an array, from index 0. *)
Definition split_sum (sizes : Z -> Z) (n : Z) : Z :=
  sum_loop sizes (Z.to_nat n) 0 0.

Definition split_offsets (sizes offsets : Z -> Z) (n : Z) : Z -> Z :=
  scan_loop sizes offsets (Z.to_nat n) 0 0.

(** Modelled from the spec: blocks a schedule occupies per round; the
    per-block quota of a round divides the elements of a round "within the
    block-count ceiling". *)
Definition blocks_required (a : All2AllParams.t) : Z :=
  All2AllParams.elts_per_round a / All2AllParams.elts_per_block_per_round a.

(** Modelled from the spec: the exchange parameter block the plan stage
    derives (not under src/). The spec does not say how the per-round and
    per-block sizes are chosen; the choice is the tentative block [c]. The
    round count is computed from the output total; identity, generation,
    peer pointers and totals come from the plan request [p]. *)
Definition scheduled (p : All2AllPlanParams.t) (c : All2AllParams.t)
  : All2AllParams.t :=
  All2AllParams.mk
    (All2AllPlanParams.elts_size p)
    (All2AllParams.elts_per_block c)
    (All2AllParams.elts_per_block_per_round c)
    (All2AllPlanParams.output_elts_total p / All2AllParams.elts_per_round c)
    (All2AllParams.elts_per_round c)
    (All2AllPlanParams.rank p) (All2AllPlanParams.local_rank p)
    (All2AllPlanParams.ranks_per_node p)
    (All2AllPlanParams.barrier_flag p)
    (All2AllPlanParams.buffer_meta_ptrs p)
    (All2AllPlanParams.peer_barrier_ptrs_in p)
    (All2AllPlanParams.peer_barrier_ptrs_out p)
    (All2AllPlanParams.peer_comm_buffer_ptrs p)
    (All2AllParams.local_output_buffer_ptr c)
    (All2AllParams.local_input_buffer_ptr c)
    (All2AllPlanParams.plan_meta_ptr p)
    (All2AllParams.is_capturing c)
    (All2AllParams.block_size c)
    (All2AllPlanParams.output_elts_total p)
    (All2AllPlanParams.input_elts_total p).

(** Modelled from the spec: the configuration check on block and round
    sizes (not under src/): the round size and the per-block quota of a
    round are positive, the round size divides the output total, and the
    quota divides the round size. The spec names no total for
    [elts_per_block] to divide, so that field is passed on unchecked. *)
Definition sizes_divide (a : All2AllParams.t) : bool :=
  (0 <? All2AllParams.elts_per_round a)
  && (0 <? All2AllParams.elts_per_block_per_round a)
  && (All2AllParams.output_elts_total a mod All2AllParams.elts_per_round a =? 0)
  && (All2AllParams.elts_per_round a
      mod All2AllParams.elts_per_block_per_round a =? 0).

(** Modelled from the spec: schedule construction of the plan stage (not
    under src/). Sizes that do not divide are a configuration error; a
    block count above [MAX_ALL_TO_ALL_BLOCKS] is a capacity error. *)
Definition make_schedule (p : All2AllPlanParams.t) (c : All2AllParams.t)
  : plan_error + All2AllParams.t :=
  let a := scheduled p c in
  if negb (sizes_divide a) then inl ConfigurationError
  else if MAX_ALL_TO_ALL_BLOCKS <? blocks_required a then inl CapacityError
  else inr a.

(** Slot index of the barrier cell raised when a split-size table is
    published; the exchange rounds use the indices from [0] upwards. *)
Definition publish_slot : Z := -1.

(** Modelled from the spec: the publish step and the plan output (not under
    src/). The rank copies its [ranks_per_node] output split sizes into its
    own metadata region, stores the resolved offsets followed by the round
    count and the round size in its plan region, and then raises its
    generation-tagged cell in every rank's barrier array. *)
Definition publish (p : All2AllPlanParams.t) (a : All2AllParams.t) (m : Memory)
  : Memory :=
  let n := All2AllPlanParams.ranks_per_node p in
  let me := All2AllPlanParams.rank p in
  let in_table k := (0 <=? k) && (k <? n) in
  let meta j k :=
    if (j =? me) && in_table k then All2AllPlanParams.output_split_sizes p k
    else buffer_meta m j k in
  let resolved j k :=
    if negb (j =? me) then plan_meta m j k
    else if in_table k then All2AllPlanParams.output_split_offsets p k
    else if in_table (k - n) then All2AllPlanParams.input_split_offsets p (k - n)
    else if k =? 2 * n then All2AllParams.round_count a
    else if k =? 2 * n + 1 then All2AllParams.elts_per_round a
    else plan_meta m j k in
  let raised o s r :=
    if in_table o && (s =? me) && (r =? publish_slot)
    then All2AllPlanParams.barrier_flag p
    else barrier m o s r in
  set_barrier (set_plan_meta (set_buffer_meta m meta) resolved) raised.

Section PlanStage.

(** Number of slots of the per-peer pointer arrays; the constant is
    declared in a header that is not part of the sources. *)
Variable MAX_RANKS_PER_NODE : Z.

(** The launching side's choice of per-round and per-block sizes. *)
Variable candidate : All2AllPlanParams.t -> All2AllParams.t.

(** Modelled from the spec: the checks and computations of the plan stage
    (not under src/). Configuration errors are detected first (rank count
    beyond the maximum, split sizes whose sum disagrees with the announced
    total), then the schedule is built; a request that passes everything
    gets its two offset arrays filled and its exchange parameter block. *)
Definition resolve (p : All2AllPlanParams.t)
  : plan_error + All2AllPlanParams.t * All2AllParams.t :=
  let n := All2AllPlanParams.ranks_per_node p in
  if MAX_RANKS_PER_NODE <? n then inl ConfigurationError
  else if negb (split_sum (All2AllPlanParams.output_split_sizes p) n
                =? All2AllPlanParams.output_elts_total p)
  then inl ConfigurationError
  else if negb (split_sum (All2AllPlanParams.input_split_sizes p) n
                =? All2AllPlanParams.input_elts_total p)
  then inl ConfigurationError
  else
    match make_schedule p (candidate p) with
    | inl e => inl e
    | inr a =>
        inr (All2AllPlanParams.set_split_offsets p
               (split_offsets (All2AllPlanParams.output_split_sizes p)
                              (All2AllPlanParams.output_split_offsets p) n)
               (split_offsets (All2AllPlanParams.input_split_sizes p)
                              (All2AllPlanParams.input_split_offsets p) n),
             a)
    end.

(** Modelled from the spec: the plan stage as the caller sees it (not under
    src/). An error is returned with the store as it was; the publish step
    runs only for a resolved plan. *)
Definition plan (p : All2AllPlanParams.t) (m : Memory)
  : (plan_error + All2AllPlanParams.t * All2AllParams.t) * Memory :=
  match resolve p with
  | inl e => (inl e, m)
  | inr (p', a) => (inr (p', a), publish p' a m)
  end.

End PlanStage.

(** ** Exchange stage *)

(** Modelled from the spec: the readiness test of the wait phase (not under
    src/): a barrier cell counts as raised for this call when it holds the
    caller's generation tag. *)
Definition flag_ready (cell generation_flag : Z) : bool :=
  cell =? generation_flag.

(** Progress of one exchange call: the shared store, which source parts
    have been copied, which peer cells each rank has seen raised, and which
    rounds each rank has drained. *)
Record State : Type := mkState {
  mem : Memory;
  copied : Z -> Z -> Z -> bool;
  observed : Z -> Z -> Z -> bool;
  drained : Z -> Z -> bool
}.

Definition mark3 (f : Z -> Z -> Z -> bool) (a b c : Z) : Z -> Z -> Z -> bool :=
  fun x y z => ((x =? a) && (y =? b) && (z =? c)) || f x y z.

Definition mark2 (f : Z -> Z -> bool) (a b : Z) : Z -> Z -> bool :=
  fun x y => ((x =? a) && (y =? b)) || f x y.

(** The phases of the per-round state machine. [Copy i j r]: rank [i]
    writes its part of round [r] into rank [j]'s receive region.
    [Signal i j r]: rank [i] raises its cell for round [r] in rank [j]'s
    barrier array. [Spin j p r] and [Observe j p r]: rank [j] polls peer
    [p]'s cell for round [r] and finds it not raised, or raised.
    [Drain j r]: rank [j] moves round [r] of its receive region into its
    output buffer. *)
Inductive event : Type :=
| Copy (i j r : Z)
| Signal (i j r : Z)
| Spin (j p r : Z)
| Observe (j p r : Z)
| Drain (j r : Z).

Section Exchange.

(** Ranks on the node, and for each rank its resolved plan and its exchange
    parameter block. *)
Variable ranks : Z.
Variable plans : Z -> All2AllPlanParams.t.
Variable params : Z -> All2AllParams.t.

Definition is_rank (i : Z) : bool := (0 <=? i) && (i <? ranks).

Definition is_round (j r : Z) : bool :=
  (0 <=? r) && (r <? All2AllParams.round_count (params j)).

(** Modelled from the spec: round [r] of rank [j] covers the output
    positions [r * elts_per_round, (r + 1) * elts_per_round). *)
Definition window (j r k : Z) : bool :=
  (r * All2AllParams.elts_per_round (params j) <=? k)
  && (k <? (r + 1) * All2AllParams.elts_per_round (params j)).

(** Modelled from the spec: the part of rank [j]'s receive region assigned
    to source rank [i] starts at the planned offset and has the planned
    size. *)
Definition slice (j i k : Z) : bool :=
  (All2AllPlanParams.output_split_offsets (plans j) i <=? k)
  && (k <? All2AllPlanParams.output_split_offsets (plans j) i
           + All2AllPlanParams.output_split_sizes (plans j) i).

(** The element of rank [i]'s input that belongs at position [k] of rank
    [j]'s receive region. *)
Definition source_elt (m : Memory) (i j k : Z) : Z :=
  local_input m i
    (All2AllPlanParams.input_split_offsets (plans i) j
     + (k - All2AllPlanParams.output_split_offsets (plans j) i)).

(** Modelled from the spec: when a phase may run (not under src/). Blocks
    of one rank own disjoint sub-ranges of a round and are taken together.
    A rank signals and polls peers only; its own part needs no cell. A
    round is drained once every peer's cell has been seen raised. *)
Definition enabled (s : State) (e : event) : bool :=
  match e with
  | Copy i j r => is_rank i && is_rank j && is_round j r
  | Signal i j r =>
      is_rank i && is_rank j && is_round j r && negb (i =? j)
      && copied s i j r
  | Spin j p r =>
      is_rank j && is_rank p && is_round j r && negb (p =? j)
      && negb (flag_ready (barrier (mem s) j p r)
                          (All2AllParams.barrier_flag (params j)))
  | Observe j p r =>
      is_rank j && is_rank p && is_round j r && negb (p =? j)
      && flag_ready (barrier (mem s) j p r)
                    (All2AllParams.barrier_flag (params j))
  | Drain j r =>
      is_rank j && is_round j r && copied s j j r
      && forallb (fun p => (p =? j) || observed s j p r)
                 (range (All2AllParams.ranks_per_node (params j)))
  end.

(** Modelled from the spec: the effect of a phase (not under src/). A
    sender finds its part of a receive region through the receiver's split
    sizes, which [buffer_meta_ptrs] exposes to the other ranks. A signal
    stores the sender's [barrier_flag] in the receiver's cell. *)
Definition apply (e : event) (s : State) : State :=
  match e with
  | Copy i j r =>
      mkState
        (set_comm_buffer (mem s)
           (fun d k =>
              if (d =? j) && window j r k && slice j i k
              then source_elt (mem s) i j k
              else comm_buffer (mem s) d k))
        (mark3 (copied s) i j r) (observed s) (drained s)
  | Signal i j r =>
      mkState
        (set_barrier (mem s)
           (fun o p x =>
              if (o =? j) && (p =? i) && (x =? r)
              then All2AllParams.barrier_flag (params i)
              else barrier (mem s) o p x))
        (copied s) (observed s) (drained s)
  | Spin _ _ _ => s
  | Observe j p r =>
      mkState (mem s) (copied s) (mark3 (observed s) j p r) (drained s)
  | Drain j r =>
      mkState
        (set_local_output (mem s)
           (fun d k =>
              if (d =? j) && window j r k
              then comm_buffer (mem s) d k
              else local_output (mem s) d k))
        (copied s) (observed s) (mark2 (drained s) j r)
  end.

Definition step (s : State) (e : event) (s' : State) : Prop :=
  enabled s e = true /\ s' = apply e s.

(** Executions: any interleaving of enabled phases. *)
Inductive run : State -> list event -> State -> Prop :=
| run_done : forall s, run s [] s
| run_step : forall s e s1 tr s2,
    step s e s1 -> run s1 tr s2 -> run s (e :: tr) s2.

Fixpoint exec (tr : list event) (s : State) : option State :=
  match tr with
  | [] => Some s
  | e :: tr' => if enabled s e then exec tr' (apply e s) else None
  end.

(** A call starts with nothing copied, observed or drained, on whatever the
    store holds. *)
Definition start (m : Memory) : State :=
  mkState m (fun _ _ _ => false) (fun _ _ _ => false) (fun _ _ => false).

(** The exchange is over when every rank has drained all its rounds. *)
Definition complete (s : State) : Prop :=
  forall j r, is_rank j = true -> is_round j r = true -> drained s j r = true.

(** What every reachable state of a call satisfies, for a call started on
    store [m0] with generation tag [tag]: inputs are never written; a part
    marked copied is in place in the receive region; a peer cell holding
    the tag was raised after its part was copied; a cell seen raised
    belongs to a copied part; a drained round holds the sources' elements
    in the output buffer. *)
Definition invariant (m0 : Memory) (tag : Z) (s : State) : Prop :=
  (forall i k, local_input (mem s) i k = local_input m0 i k)
  /\ (forall i j r k,
      copied s i j r = true -> is_rank i = true -> is_rank j = true ->
      window j r k = true -> slice j i k = true ->
      comm_buffer (mem s) j k = source_elt m0 i j k)
  /\ (forall j p r,
      is_rank j = true -> is_rank p = true -> is_round j r = true ->
      p <> j -> barrier (mem s) j p r = tag -> copied s p j r = true)
  /\ (forall j p r, observed s j p r = true -> copied s p j r = true)
  /\ (forall j r i k,
      drained s j r = true -> is_rank i = true -> is_rank j = true ->
      window j r k = true -> slice j i k = true ->
      local_output (mem s) j k = source_elt m0 i j k).

(** One schedule in which nobody ever spins: all copies, then all signals,
    then all polls, then all drains. *)
Definition rounds_of (j : Z) : list Z :=
  range (All2AllParams.round_count (params j)).

Definition tasks : list (Z * Z * Z) :=
  flat_map (fun j =>
    flat_map (fun r => map (fun i => (i, j, r)) (range ranks)) (rounds_of j))
    (range ranks).

Definition peer_tasks : list (Z * Z * Z) :=
  filter (fun t => match t with (i, j, _) => negb (i =? j) end) tasks.

Definition lockstep : list event :=
  map (fun t => match t with (i, j, r) => Copy i j r end) tasks
  ++ map (fun t => match t with (i, j, r) => Signal i j r end) peer_tasks
  ++ map (fun t => match t with (i, j, r) => Observe j i r end) peer_tasks
  ++ flat_map (fun j => map (fun r => Drain j r) (rounds_of j)) (range ranks).

(** Progress marks of the lockstep schedule: every part copied, every
    peer cell holding [tag], every peer cell seen raised. *)
Definition all_copied (s : State) : Prop :=
  forall i j r, is_rank i = true -> is_rank j = true ->
                is_round j r = true -> copied s i j r = true.

Definition all_raised (tag : Z) (s : State) : Prop :=
  forall i j r, is_rank i = true -> is_rank j = true ->
                is_round j r = true -> i <> j ->
                barrier (mem s) j i r = tag.

Definition all_observed (s : State) : Prop :=
  forall i j r, is_rank i = true -> is_rank j = true ->
                is_round j r = true -> i <> j ->
                observed s j i r = true.

End Exchange.

(** ** A node ready to exchange *)

(** Polls of a peer's barrier cell, successful or not. *)
Definition is_poll (e : event) : bool :=
  match e with
  | Spin _ _ _ | Observe _ _ _ => true
  | _ => false
  end.

(** Every rank of the node went through the plan stage for the same call:
    same rank count and generation [g], non-negative split sizes, the size
    a receiver expects from a sender is the size that sender announces,
    and the plan stage resolved rank [j]'s request into [plans j] and
    [params j]. *)
Definition node_planned (MAX_RANKS_PER_NODE : Z)
  (candidate : All2AllPlanParams.t -> All2AllParams.t) (ranks : Z)
  (requests plans : Z -> All2AllPlanParams.t) (params : Z -> All2AllParams.t)
  (g : Z) : Prop :=
  forall j, 0 <= j < ranks ->
    All2AllPlanParams.ranks_per_node (requests j) = ranks
    /\ All2AllPlanParams.barrier_flag (requests j) = to_uint32 g
    /\ (forall i, 0 <= i < ranks ->
        0 <= All2AllPlanParams.output_split_sizes (requests j) i)
    /\ (forall i, 0 <= i < ranks ->
        All2AllPlanParams.output_split_sizes (requests j) i
        = All2AllPlanParams.input_split_sizes (requests i) j)
    /\ resolve MAX_RANKS_PER_NODE candidate (requests j)
       = inr (plans j, params j).

(** Barrier cells of the rounds of this call that do not hold the tag of
    generation [g] when the call starts. *)
Definition barrier_clear (ranks : Z) (params : Z -> All2AllParams.t)
  (m : Memory) (g : Z) : Prop :=
  forall j p r, 0 <= j < ranks -> 0 <= p < ranks ->
    0 <= r < All2AllParams.round_count (params j) -> p <> j ->
    barrier m j p r <> to_uint32 g.

(** The barrier cells the ranks poll during a call, each holding the tag
    of the generation [written] names for it. *)
Definition round_cells_written (ranks : Z) (params : Z -> All2AllParams.t)
  (m : Memory) (written : Z -> Z -> Z -> Z) : Prop :=
  forall j p r, 0 <= j < ranks -> 0 <= p < ranks ->
    0 <= r < All2AllParams.round_count (params j) -> p <> j ->
    barrier m j p r = to_uint32 (written j p r).

(** Generations [written] that precede [g], on the same cells. *)
Definition written_earlier (ranks : Z) (params : Z -> All2AllParams.t)
  (written : Z -> Z -> Z -> Z) (g : Z) : Prop :=
  forall j p r, 0 <= j < ranks -> 0 <= p < ranks ->
    0 <= r < All2AllParams.round_count (params j) -> p <> j ->
    written j p r < g.

(** Generations [written] none of which lies a multiple of [2^32] calls
    away from [g], on the same cells. *)
Definition written_apart (ranks : Z) (params : Z -> All2AllParams.t)
  (written : Z -> Z -> Z -> Z) (g : Z) : Prop :=
  forall j p r, 0 <= j < ranks -> 0 <= p < ranks ->
    0 <= r < All2AllParams.round_count (params j) -> p <> j ->
    (g - written j p r) mod 2 ^ 32 <> 0.

(** The generation-tagging property with "earlier generation" read as any
    smaller counter value: on round cells that hold tags written by
    earlier generations, a poll finds a cell raised only after the peer has
    signalled in the current call, a completed exchange has delivered
    every source's elements, and a replay with the same sizes and data
    under another generation ends with the same elements at the same
    offsets. *)
Definition stale_flags_never_ready (MAX_RANKS_PER_NODE : Z)
  (candidate : All2AllPlanParams.t -> All2AllParams.t) : Prop :=
  forall (ranks : Z) (requests plans : Z -> All2AllPlanParams.t)
         (params : Z -> All2AllParams.t) (g : Z) (m0 : Memory)
         (written : Z -> Z -> Z -> Z),
    node_planned MAX_RANKS_PER_NODE candidate ranks requests plans params g ->
    round_cells_written ranks params m0 written ->
    written_earlier ranks params written g ->
    (forall tr1 tr2 s j p r,
       run ranks plans params (start m0) (tr1 ++ Observe j p r :: tr2) s ->
       In (Signal p j r) tr1)
    /\ (forall tr s,
        run ranks plans params (start m0) tr s -> complete ranks params s ->
        forall i j x, 0 <= i < ranks -> 0 <= j < ranks ->
          0 <= x < All2AllPlanParams.input_split_sizes (requests i) j ->
          local_output (mem s) j
            (All2AllPlanParams.output_split_offsets (plans j) i + x)
          = local_input m0 i
              (All2AllPlanParams.input_split_offsets (plans i) j + x))
    /\ (forall (g' : Z) (requests' plans' : Z -> All2AllPlanParams.t)
               (params' : Z -> All2AllParams.t) (m0' : Memory)
               (written' : Z -> Z -> Z -> Z),
        node_planned MAX_RANKS_PER_NODE candidate ranks requests' plans'
                     params' g' ->
        round_cells_written ranks params' m0' written' ->
        written_earlier ranks params' written' g' ->
        (forall j i,
           All2AllPlanParams.output_split_sizes (requests' j) i
           = All2AllPlanParams.output_split_sizes (requests j) i
           /\ All2AllPlanParams.input_split_sizes (requests' j) i
              = All2AllPlanParams.input_split_sizes (requests j) i) ->
        (forall i k, local_input m0' i k = local_input m0 i k) ->
        forall tr s tr' s',
          run ranks plans params (start m0) tr s -> complete ranks params s ->
          run ranks plans' params' (start m0') tr' s' ->
          complete ranks params' s' ->
          forall i j x, 0 <= i < ranks -> 0 <= j < ranks ->
            0 <= x < All2AllPlanParams.input_split_sizes (requests i) j ->
            All2AllPlanParams.output_split_offsets (plans' j) i
            = All2AllPlanParams.output_split_offsets (plans j) i
            /\ local_output (mem s') j
                 (All2AllPlanParams.output_split_offsets (plans' j) i + x)
               = local_output (mem s) j
                   (All2AllPlanParams.output_split_offsets (plans j) i + x)).

(** ** A concrete node *)

(** Four ranks; every rank sends ten elements to every rank, and rank [i]'s
    sequence is [i * 100 + k] for [k] in [0, 10). Rounds of twenty elements
    handled by two blocks of ten. *)
Module Scenario.

Definition max_ranks : Z := 8.

Definition request (j : Z) : All2AllPlanParams.t :=
  All2AllPlanParams.mk 2 j j 4 (to_uint32 1) [] [] [] 0
    (fun _ => 10) (fun _ => 10) (fun _ => 0) (fun _ => 0) 0 (16 * 512) 40 40.

Definition choice (p : All2AllPlanParams.t) : All2AllParams.t :=
  All2AllParams.mk 2 10 10 0 20 0 0 0 0 [] [] [] 0 0 0 0 false 512 0 0.

(** A choice whose round size, thirty, does not divide the forty output
    elements of a rank. *)
Definition uneven_choice (p : All2AllPlanParams.t) : All2AllParams.t :=
  All2AllParams.mk 2 10 10 0 30 0 0 0 0 [] [] [] 0 0 0 0 false 512 0 0.

Definition memory : Memory :=
  mkMemory (fun _ _ => 0) (fun _ _ _ => 0) (fun _ _ => 0) (fun _ _ => 0)
           (fun _ _ => 0) (fun i x => i * 100 + x mod 10).

Definition resolved (j : Z) : All2AllPlanParams.t * All2AllParams.t :=
  match resolve max_ranks choice (request j) with
  | inr r => r
  | inl _ => (request j, choice (request j))
  end.

Definition plans (j : Z) : All2AllPlanParams.t := fst (resolved j).

Definition params (j : Z) : All2AllParams.t := snd (resolved j).

(** The same node called again [2^32] generations after generation 7, on
    barrier cells that still hold the tag of generation 7. *)
Definition early_generation : Z := 7.

Definition late_generation : Z := 2 ^ 32 + 7.

Definition late_request (j : Z) : All2AllPlanParams.t :=
  All2AllPlanParams.set_barrier_flag (request j) late_generation.

Definition late_resolved (j : Z) : All2AllPlanParams.t * All2AllParams.t :=
  match resolve max_ranks choice (late_request j) with
  | inr r => r
  | inl _ => (late_request j, choice (late_request j))
  end.

Definition late_plans (j : Z) : All2AllPlanParams.t := fst (late_resolved j).

Definition late_params (j : Z) : All2AllParams.t := snd (late_resolved j).

Definition stale_memory : Memory :=
  mkMemory (fun _ _ => 0) (fun _ _ _ => to_uint32 early_generation)
           (fun _ _ => 0) (fun _ _ => 0) (fun _ _ => 0)
           (fun i x => i * 100 + x mod 10).

(** The store after the four ranks have published their plans for the
    late generation, starting from cells that hold the tag of generation
    [2^32]. *)
Definition published_memory : Memory :=
  fold_left (fun m j => snd (plan max_ranks choice (late_request j) m))
            (range 4) memory.

(** Every rank copies its own part only, polls every peer and drains. *)
Definition eager : list event :=
  map (fun t => match t with (i, j, r) => Copy i j r end)
      (filter (fun t => match t with (i, j, _) => i =? j end)
              (tasks 4 late_params))
  ++ map (fun t => match t with (i, j, r) => Observe j i r end)
         (peer_tasks 4 late_params)
  ++ flat_map (fun j => map (fun r => Drain j r) (rounds_of late_params j))
              (range 4).

(** A single rank that keeps forty elements for itself. *)
Definition lone_request : All2AllPlanParams.t :=
  All2AllPlanParams.mk 2 0 0 1 (to_uint32 1) [] [] [] 0
    (fun _ => 40) (fun _ => 40) (fun _ => 0) (fun _ => 0) 0 (16 * 512) 40 40.

Definition lone_resolved : All2AllPlanParams.t * All2AllParams.t :=
  match resolve max_ranks choice lone_request with
  | inr r => r
  | inl _ => (lone_request, choice lone_request)
  end.

End Scenario.

(** * Marlin kernel instantiations for half activations and kU4 weights *)

(** The translation unit [kernel_fp16_ku4.cu] consists of explicit
    instantiations of the kernel template [Marlin]. The template is
    declared in [marlin_template.h], which is not part of the sources; an
    instantiation is kept as its twelve template arguments in the order
    written, named after the template's parameters. *)
Module Marlin.

(** The only activation type of this file. *)
Inductive scalar_type : Type := half.

Record instantiation : Type := mk {
  scalar_t : scalar_type;
  w_type_id : Z;
  threads : Z;
  thread_m_blocks : Z;
  thread_n_blocks : Z;
  thread_k_blocks : Z;
  m_block_size_8 : bool;
  stages : Z;
  has_act_order : bool;
  has_zp : bool;
  group_blocks : Z;
  is_zp_float : bool
}.

(** What tells two instantiations of this file apart: the arguments that
    are not the same on every line. *)
Definition shape (c : instantiation) : Z * Z * Z * Z * bool * Z :=
  (threads c, thread_m_blocks c, thread_n_blocks c, thread_k_blocks c,
   m_block_size_8 c, group_blocks c).

Definition shape_dec (x y : Z * Z * Z * Z * bool * Z) : {x = y} + {x <> y}.
Proof. repeat decide equality. Defined.

Fixpoint distinct (l : list (Z * Z * Z * Z * bool * Z)) : bool :=
  match l with
  | [] => true
  | x :: t => (if in_dec shape_dec x t then false else true) && distinct t
  end.

Section Table.

(** [sglang::kU4.id()] and [pipe_stages] are defined in headers that are
    not part of the sources. *)
Variable kU4_id : Z.
Variable pipe_stages : Z.

(** The instantiations, in the order of the file. *)
Definition kernel_fp16_ku4 : list instantiation :=
  [
    mk half kU4_id 256 1 8 8 true pipe_stages false true (-1) false;
    mk half kU4_id 128 1 8 4 true pipe_stages false true (-1) false;
    mk half kU4_id 256 1 8 8 false pipe_stages false true (-1) false;
    mk half kU4_id 128 1 8 4 false pipe_stages false true (-1) false;
    mk half kU4_id 256 2 16 4 false pipe_stages false true (-1) false;
    mk half kU4_id 128 2 8 4 false pipe_stages false true (-1) false;
    mk half kU4_id 256 3 16 4 false pipe_stages false true (-1) false;
    mk half kU4_id 128 3 8 4 false pipe_stages false true (-1) false;
    mk half kU4_id 256 4 16 4 false pipe_stages false true (-1) false;
    mk half kU4_id 128 4 8 4 false pipe_stages false true (-1) false;
    mk half kU4_id 256 1 8 8 true pipe_stages false true 2 false;
    mk half kU4_id 128 1 8 4 true pipe_stages false true 2 false;
    mk half kU4_id 256 1 8 8 false pipe_stages false true 2 false;
    mk half kU4_id 128 1 8 4 false pipe_stages false true 2 false;
    mk half kU4_id 256 2 16 4 false pipe_stages false true 2 false;
    mk half kU4_id 128 2 8 4 false pipe_stages false true 2 false;
    mk half kU4_id 256 3 16 4 false pipe_stages false true 2 false;
    mk half kU4_id 128 3 8 4 false pipe_stages false true 2 false;
    mk half kU4_id 256 4 16 4 false pipe_stages false true 2 false;
    mk half kU4_id 128 4 8 4 false pipe_stages false true 2 false;
    mk half kU4_id 256 1 8 8 true pipe_stages false true 4 false;
    mk half kU4_id 128 1 8 4 true pipe_stages false true 4 false;
    mk half kU4_id 256 1 8 8 false pipe_stages false true 4 false;
    mk half kU4_id 128 1 8 4 false pipe_stages false true 4 false;
    mk half kU4_id 256 2 16 4 false pipe_stages false true 4 false;
    mk half kU4_id 128 2 8 4 false pipe_stages false true 4 false;
    mk half kU4_id 256 3 16 4 false pipe_stages false true 4 false;
    mk half kU4_id 128 3 8 4 false pipe_stages false true 4 false;
    mk half kU4_id 256 4 16 4 false pipe_stages false true 4 false;
    mk half kU4_id 128 4 8 4 false pipe_stages false true 4 false;
    mk half kU4_id 256 1 8 8 true pipe_stages false true 8 false;
    mk half kU4_id 128 1 8 4 true pipe_stages false true 8 false;
    mk half kU4_id 256 1 8 8 false pipe_stages false true 8 false;
    mk half kU4_id 128 1 8 4 false pipe_stages false true 8 false;
    mk half kU4_id 256 2 16 4 false pipe_stages false true 8 false;
    mk half kU4_id 128 2 8 4 false pipe_stages false true 8 false;
    mk half kU4_id 256 3 16 4 false pipe_stages false true 8 false;
    mk half kU4_id 128 3 8 4 false pipe_stages false true 8 false;
    mk half kU4_id 256 4 16 4 false pipe_stages false true 8 false;
    mk half kU4_id 128 4 8 4 false pipe_stages false true 8 false
  ].

End Table.

End Marlin.

(** * Properties *)

(** ** Ranges and sums *)

Lemma in_range_iff (n k : Z) : In k (range n) <-> 0 <= k < n.
Proof.
  unfold range. rewrite in_map_iff. split.
  - intros [x [Hx Hin]]. apply in_seq in Hin. lia.
  - intros Hk. exists (Z.to_nat k). split; [lia|]. apply in_seq. lia.
Qed.

Lemma range_nonpos (n : Z) : n <= 0 -> range n = [].
Proof.
  intros Hn. unfold range. replace (Z.to_nat n) with O by lia. reflexivity.
Qed.

Lemma range_succ (n : Z) : 0 <= n -> range (n + 1) = range n ++ [n].
Proof.
  intros Hn. unfold range.
  replace (Z.to_nat (n + 1)) with (S (Z.to_nat n)) by lia.
  rewrite seq_S, map_app. simpl. f_equal. f_equal. lia.
Qed.

Lemma Zsum_app (l1 l2 : list Z) : Zsum (l1 ++ l2) = Zsum l1 + Zsum l2.
Proof.
  induction l1 as [|x l1 IH]; simpl; [reflexivity|]. rewrite IH. lia.
Qed.

Lemma prefix_sum_0 (sizes : Z -> Z) : prefix_sum sizes 0 = 0.
Proof. reflexivity. Qed.

Lemma prefix_sum_succ (sizes : Z -> Z) (i : Z) :
  0 <= i -> prefix_sum sizes (i + 1) = prefix_sum sizes i + sizes i.
Proof.
  intros Hi. unfold prefix_sum. rewrite range_succ by assumption.
  rewrite map_app, Zsum_app. simpl. lia.
Qed.

(** With non-negative sizes the prefix sums grow with the index. *)
Lemma prefix_sum_mono (sizes : Z -> Z) (n : Z) :
  (forall k, 0 <= k < n -> 0 <= sizes k) ->
  forall i j, 0 <= i -> i <= j -> j <= n ->
  prefix_sum sizes i <= prefix_sum sizes j.
Proof.
  intros Hpos i j Hi Hij Hj.
  replace j with (i + Z.of_nat (Z.to_nat (j - i))) in * by lia.
  induction (Z.to_nat (j - i)) as [|d IH].
  - replace (i + Z.of_nat 0) with i by lia. lia.
  - replace (i + Z.of_nat (S d)) with (i + Z.of_nat d + 1) in * by lia.
    rewrite prefix_sum_succ by lia.
    assert (0 <= sizes (i + Z.of_nat d)) by (apply Hpos; lia).
    assert (prefix_sum sizes i <= prefix_sum sizes (i + Z.of_nat d))
      by (apply IH; lia).
    lia.
Qed.

Lemma prefix_sum_ext (f h : Z -> Z) (i : Z) :
  (forall k, 0 <= k < i -> f k = h k) -> prefix_sum f i = prefix_sum h i.
Proof.
  intros Heq. unfold prefix_sum. f_equal. apply map_ext_in.
  intros k Hk. apply Heq. apply in_range_iff. assumption.
Qed.

(** ** The two loops of the plan stage *)

Lemma sum_loop_spec (sizes : Z -> Z) (n : nat) :
  forall i acc, 0 <= i ->
  sum_loop sizes n i acc
  = acc + (prefix_sum sizes (i + Z.of_nat n) - prefix_sum sizes i).
Proof.
  induction n as [|n IH]; intros i acc Hi.
  - simpl. replace (i + 0) with i by lia. lia.
  - cbn [sum_loop]. rewrite IH by lia.
    replace (i + 1 + Z.of_nat n) with (i + Z.of_nat (S n)) by lia.
    rewrite (prefix_sum_succ sizes i) by lia. lia.
Qed.

Lemma split_sum_spec (sizes : Z -> Z) (n : Z) :
  split_sum sizes n = Zsum (map sizes (range n)).
Proof.
  unfold split_sum. rewrite sum_loop_spec by lia.
  rewrite prefix_sum_0. unfold prefix_sum at 1.
  destruct (Z_lt_le_dec n 0) as [Hn|Hn].
  - replace (Z.to_nat n) with O by lia. simpl.
    rewrite (range_nonpos n) by lia. reflexivity.
  - replace (0 + Z.of_nat (Z.to_nat n)) with n by lia. lia.
Qed.

Lemma scan_loop_outside (sizes : Z -> Z) (n : nat) :
  forall offsets i acc k,
  k < i \/ i + Z.of_nat n <= k ->
  scan_loop sizes offsets n i acc k = offsets k.
Proof.
  induction n as [|n IH]; intros offsets i acc k Hk; [reflexivity|].
  cbn [scan_loop]. rewrite IH by lia. unfold upd.
  destruct (k =? i) eqn:E; [lia | reflexivity].
Qed.

Lemma scan_loop_inside (sizes : Z -> Z) (n : nat) :
  forall offsets i acc k,
  0 <= i -> i <= k < i + Z.of_nat n ->
  scan_loop sizes offsets n i acc k
  = acc + (prefix_sum sizes k - prefix_sum sizes i).
Proof.
  induction n as [|n IH]; intros offsets i acc k Hi Hk; [lia|].
  cbn [scan_loop]. destruct (Z.eq_dec k i) as [->|Hne].
  - rewrite scan_loop_outside by lia. unfold upd. rewrite Z.eqb_refl. lia.
  - rewrite IH by lia. rewrite (prefix_sum_succ sizes i) by lia. lia.
Qed.

Lemma split_offsets_spec (sizes offsets : Z -> Z) (n i : Z) :
  0 <= i < n -> split_offsets sizes offsets n i = prefix_sum sizes i.
Proof.
  intros Hi. unfold split_offsets. rewrite scan_loop_inside by lia.
  rewrite prefix_sum_0. lia.
Qed.

Lemma split_offsets_frame (sizes offsets : Z -> Z) (n i : Z) :
  i < 0 \/ n <= i -> split_offsets sizes offsets n i = offsets i.
Proof.
  intros Hi. unfold split_offsets. apply scan_loop_outside. lia.
Qed.

(** Signed overflow has no defined result in the source language, so the
    loops are read over the integers; for non-negative sizes whose sum is
    an [int64_t] total, every offset the plan stage stores is one too. *)
Lemma split_offsets_int64 (sizes offsets : Z -> Z) (n total i : Z) :
  (forall k, 0 <= k < n -> 0 <= sizes k) ->
  split_sum sizes n = total -> is_int64 total ->
  0 <= i < n ->
  is_int64 (split_offsets sizes offsets n i)
  /\ 0 <= split_offsets sizes offsets n i <= total.
Proof.
  intros Hpos Hsum Hrange Hi. rewrite split_offsets_spec by assumption.
  rewrite split_sum_spec in Hsum. fold (prefix_sum sizes n) in Hsum.
  pose proof (prefix_sum_mono sizes n Hpos 0 i) as M0.
  pose proof (prefix_sum_mono sizes n Hpos i n) as M1.
  rewrite prefix_sum_0 in M0. unfold is_int64 in *. lia.
Qed.

(** The documented plan block sizes are sixteen times the documented
    exchange block sizes, position by position. *)
Lemma documented_block_sizes_scale :
  plan_block_sizes = map (Z.mul 16) exchange_block_sizes.
Proof. reflexivity. Qed.

(** ** Plan stage *)

Lemma sizes_divide_true (a : All2AllParams.t) :
  sizes_divide a = true ->
  0 < All2AllParams.elts_per_round a
  /\ 0 < All2AllParams.elts_per_block_per_round a
  /\ All2AllParams.output_elts_total a mod All2AllParams.elts_per_round a = 0
  /\ All2AllParams.elts_per_round a
     mod All2AllParams.elts_per_block_per_round a = 0.
Proof.
  unfold sizes_divide. rewrite !andb_true_iff, !Z.ltb_lt, !Z.eqb_eq. tauto.
Qed.

Lemma make_schedule_inr (p : All2AllPlanParams.t) (c a : All2AllParams.t) :
  make_schedule p c = inr a ->
  a = scheduled p c /\ sizes_divide a = true
  /\ blocks_required a <= MAX_ALL_TO_ALL_BLOCKS.
Proof.
  unfold make_schedule.
  destruct (sizes_divide (scheduled p c)) eqn:Hd; simpl; [|discriminate].
  destruct (MAX_ALL_TO_ALL_BLOCKS <? blocks_required (scheduled p c)) eqn:Hb;
    [discriminate|].
  intros H. injection H as <-. apply Z.ltb_ge in Hb. auto.
Qed.

Section PlanStageFacts.

Variable MAX_RANKS_PER_NODE : Z.
Variable candidate : All2AllPlanParams.t -> All2AllParams.t.

Local Abbreviation resolve' := (resolve MAX_RANKS_PER_NODE candidate).
Local Abbreviation plan' := (plan MAX_RANKS_PER_NODE candidate).

Lemma resolve_inr (p p' : All2AllPlanParams.t) (a : All2AllParams.t) :
  resolve' p = inr (p', a) ->
  All2AllPlanParams.ranks_per_node p <= MAX_RANKS_PER_NODE
  /\ Zsum (map (All2AllPlanParams.output_split_sizes p)
               (range (All2AllPlanParams.ranks_per_node p)))
     = All2AllPlanParams.output_elts_total p
  /\ Zsum (map (All2AllPlanParams.input_split_sizes p)
               (range (All2AllPlanParams.ranks_per_node p)))
     = All2AllPlanParams.input_elts_total p
  /\ make_schedule p (candidate p) = inr a
  /\ p' = All2AllPlanParams.set_split_offsets p
            (split_offsets (All2AllPlanParams.output_split_sizes p)
               (All2AllPlanParams.output_split_offsets p)
               (All2AllPlanParams.ranks_per_node p))
            (split_offsets (All2AllPlanParams.input_split_sizes p)
               (All2AllPlanParams.input_split_offsets p)
               (All2AllPlanParams.ranks_per_node p)).
Proof.
  unfold resolve. rewrite !split_sum_spec.
  destruct (MAX_RANKS_PER_NODE <? _) eqn:Hn; [discriminate|].
  destruct (_ =? All2AllPlanParams.output_elts_total p) eqn:Ho;
    [|discriminate].
  destruct (_ =? All2AllPlanParams.input_elts_total p) eqn:Hi;
    [|discriminate].
  simpl. destruct (make_schedule p (candidate p)) as [e|a'] eqn:Hs;
    [discriminate|].
  intros H. injection H as <- <-.
  apply Z.ltb_ge in Hn. apply Z.eqb_eq in Ho, Hi. auto.
Qed.

Lemma resolve_accepts (p : All2AllPlanParams.t) (a : All2AllParams.t) :
  All2AllPlanParams.ranks_per_node p <= MAX_RANKS_PER_NODE ->
  Zsum (map (All2AllPlanParams.output_split_sizes p)
            (range (All2AllPlanParams.ranks_per_node p)))
  = All2AllPlanParams.output_elts_total p ->
  Zsum (map (All2AllPlanParams.input_split_sizes p)
            (range (All2AllPlanParams.ranks_per_node p)))
  = All2AllPlanParams.input_elts_total p ->
  make_schedule p (candidate p) = inr a ->
  resolve' p
  = inr (All2AllPlanParams.set_split_offsets p
           (split_offsets (All2AllPlanParams.output_split_sizes p)
              (All2AllPlanParams.output_split_offsets p)
              (All2AllPlanParams.ranks_per_node p))
           (split_offsets (All2AllPlanParams.input_split_sizes p)
              (All2AllPlanParams.input_split_offsets p)
              (All2AllPlanParams.ranks_per_node p)),
         a).
Proof.
  intros Hn Ho Hi Hs. unfold resolve. rewrite !split_sum_spec, Ho, Hi, Hs.
  rewrite !Z.eqb_refl. simpl.
  destruct (MAX_RANKS_PER_NODE <? _) eqn:E; [apply Z.ltb_lt in E; lia|].
  reflexivity.
Qed.

Lemma plan_fst (p : All2AllPlanParams.t) (m : Memory) :
  fst (plan' p m) = resolve' p.
Proof.
  unfold plan. destruct (resolve' p) as [e|[p' a]]; reflexivity.
Qed.

Lemma plan_rounds_tile (p p' : All2AllPlanParams.t) (a : All2AllParams.t) :
  resolve' p = inr (p', a) ->
  All2AllParams.round_count a * All2AllParams.elts_per_round a
  = All2AllParams.output_elts_total a
  /\ All2AllParams.output_elts_total a = All2AllPlanParams.output_elts_total p.
Proof.
  intros H. apply resolve_inr in H. destruct H as (_ & _ & _ & Hs & _).
  apply make_schedule_inr in Hs. destruct Hs as (Ha & Hd & _).
  apply sizes_divide_true in Hd.
  destruct Hd as (HE & _ & HT & _).
  split; [|rewrite Ha; reflexivity].
  assert (HR : All2AllParams.round_count a
               = All2AllParams.output_elts_total a
                 / All2AllParams.elts_per_round a)
    by (rewrite Ha; reflexivity).
  rewrite HR.
  pose proof (Z.div_mod (All2AllParams.output_elts_total a)
                        (All2AllParams.elts_per_round a)) as Hdm.
  lia.
Qed.

End PlanStageFacts.




(** ** Barrier generation *)

Lemma to_uint32_range (g : Z) : is_uint32 (to_uint32 g).
Proof. unfold is_uint32, to_uint32. apply Z.mod_pos_bound. lia. Qed.

Lemma to_uint32_wrap (g : Z) : to_uint32 (g + 2 ^ 32) = to_uint32 g.
Proof.
  unfold to_uint32. replace (g + 2 ^ 32) with (g + 1 * 2 ^ 32) by lia.
  apply Z.mod_add. lia.
Qed.

Lemma to_uint32_eq_iff (g g' : Z) :
  to_uint32 g' = to_uint32 g <-> (g' - g) mod 2 ^ 32 = 0.
Proof.
  unfold to_uint32. split; intros H.
  - rewrite Zminus_mod, H, Z.sub_diag. reflexivity.
  - pose proof (Z.div_mod (g' - g) (2 ^ 32)) as Hd.
    replace g' with (g + ((g' - g) / 2 ^ 32) * 2 ^ 32) by lia.
    apply Z.mod_add. lia.
Qed.

(** Tags of two generations less than [2^32] calls apart differ. *)
Lemma to_uint32_recent (g g' : Z) :
  g - 2 ^ 32 < g' < g -> to_uint32 g' <> to_uint32 g.
Proof.
  intros Hg H. apply to_uint32_eq_iff in H.
  apply Z.mod_divide in H; [|lia]. destruct H as [q Hq]. lia.
Qed.

(** C9. [barrier_flag] is a 32-bit unsigned field of both parameter
    blocks: the stored tag lies in [0, 2^32), two generation counters give
    the same tag exactly when they differ by a multiple of [2^32], and the
    blocks built for generation [g + 2^32] are the blocks built for
    generation [g], so nothing that reads them can tell a cell raised
    [2^32] generations ago from one raised now. *)
Theorem barrier_generation_wraps_at_2_32
  (a : All2AllParams.t) (p : All2AllPlanParams.t) (g : Z) :
  is_uint32 (All2AllParams.barrier_flag (All2AllParams.set_barrier_flag a g))
  /\ is_uint32 (All2AllPlanParams.barrier_flag
                  (All2AllPlanParams.set_barrier_flag p g))
  /\ All2AllParams.set_barrier_flag a (g + 2 ^ 32)
     = All2AllParams.set_barrier_flag a g
  /\ All2AllPlanParams.set_barrier_flag p (g + 2 ^ 32)
     = All2AllPlanParams.set_barrier_flag p g
  /\ (forall g',
      All2AllParams.barrier_flag (All2AllParams.set_barrier_flag a g')
      = All2AllParams.barrier_flag (All2AllParams.set_barrier_flag a g)
      <-> (g' - g) mod 2 ^ 32 = 0)
  /\ (forall g',
      All2AllPlanParams.barrier_flag (All2AllPlanParams.set_barrier_flag p g')
      = All2AllPlanParams.barrier_flag (All2AllPlanParams.set_barrier_flag p g)
      <-> (g' - g) mod 2 ^ 32 = 0).
Proof.
  unfold All2AllParams.set_barrier_flag, All2AllPlanParams.set_barrier_flag.
  cbn [All2AllParams.barrier_flag All2AllPlanParams.barrier_flag].
  rewrite to_uint32_wrap.
  repeat split; try apply to_uint32_range; try apply to_uint32_eq_iff;
    try apply to_uint32_eq_iff; auto.
Qed.

(** ** Exchange stage: executions *)

Section ExchangeFacts.

Variable ranks : Z.
Variable plans : Z -> All2AllPlanParams.t.
Variable params : Z -> All2AllParams.t.

Local Abbreviation is_rank' := (is_rank ranks).
Local Abbreviation is_round' := (is_round params).
Local Abbreviation window' := (window params).
Local Abbreviation slice' := (slice plans).
Local Abbreviation source_elt' := (source_elt plans).
Local Abbreviation enabled' := (enabled ranks params).
Local Abbreviation apply' := (apply plans params).
Local Abbreviation step' := (step ranks plans params).
Local Abbreviation run' := (run ranks plans params).
Local Abbreviation exec' := (exec ranks plans params).
Local Abbreviation complete' := (complete ranks params).

Lemma is_rank_iff (i : Z) : is_rank' i = true <-> 0 <= i < ranks.
Proof using ranks. unfold is_rank. rewrite andb_true_iff, Z.leb_le, Z.ltb_lt. reflexivity. Qed.

Lemma is_round_iff (j r : Z) :
  is_round' j r = true <-> 0 <= r < All2AllParams.round_count (params j).
Proof using params. unfold is_round. rewrite andb_true_iff, Z.leb_le, Z.ltb_lt. reflexivity. Qed.

Lemma window_iff (j r k : Z) :
  window' j r k = true
  <-> r * All2AllParams.elts_per_round (params j) <= k
      < (r + 1) * All2AllParams.elts_per_round (params j).
Proof using params. unfold window. rewrite andb_true_iff, Z.leb_le, Z.ltb_lt. reflexivity. Qed.

Lemma slice_iff (j i k : Z) :
  slice' j i k = true
  <-> All2AllPlanParams.output_split_offsets (plans j) i <= k
      < All2AllPlanParams.output_split_offsets (plans j) i
        + All2AllPlanParams.output_split_sizes (plans j) i.
Proof using plans. unfold slice. rewrite andb_true_iff, Z.leb_le, Z.ltb_lt. reflexivity. Qed.

(** Consecutive rounds use disjoint output positions. *)
Lemma window_disjoint (j r r' k : Z) :
  0 < All2AllParams.elts_per_round (params j) ->
  window' j r k = true -> window' j r' k = true -> r = r'.
Proof.
  rewrite !window_iff. intros HE H1 H2.
  destruct (Z.lt_trichotomy r r') as [Hlt|[Heq|Hgt]]; [|assumption|]; nia.
Qed.

(** Every position below the tiled total lies in exactly one round. *)
Lemma window_of_position (j k : Z) :
  0 < All2AllParams.elts_per_round (params j) ->
  0 <= k < All2AllParams.round_count (params j)
           * All2AllParams.elts_per_round (params j) ->
  is_round' j (k / All2AllParams.elts_per_round (params j)) = true
  /\ window' j (k / All2AllParams.elts_per_round (params j)) k = true.
Proof.
  intros HE Hk. rewrite is_round_iff, window_iff.
  pose proof (Z.div_mod k (All2AllParams.elts_per_round (params j))) as Hd.
  pose proof (Z.mod_pos_bound k (All2AllParams.elts_per_round (params j)) HE)
    as Hm.
  assert (0 <= k / All2AllParams.elts_per_round (params j))
    by (apply Z.div_pos; lia).
  assert (k / All2AllParams.elts_per_round (params j)
          < All2AllParams.round_count (params j))
    by (apply Z.div_lt_upper_bound; lia).
  split; nia.
Qed.

Lemma exec_run (tr : list event) :
  forall s s', exec' tr s = Some s' <-> run' s tr s'.
Proof.
  induction tr as [|e tr IH]; intros s s'; simpl.
  - split.
    + intros H. injection H as <-. constructor.
    + intros H. inversion H. reflexivity.
  - destruct (enabled' s e) eqn:He.
    + rewrite IH. split.
      * intros H. econstructor; [split; [exact He|reflexivity]|exact H].
      * intros H. inversion H; subst.
        match goal with Hs : step _ _ _ _ _ _ |- _ => destruct Hs as [_ ->] end.
        assumption.
    + split; [discriminate|].
      intros H. inversion H; subst.
      match goal with Hs : step _ _ _ _ _ _ |- _ => destruct Hs as [Hen _] end.
      congruence.
Qed.

Lemma run_app (tr1 tr2 : list event) :
  forall s s', run' s (tr1 ++ tr2) s'
  <-> exists s1, run' s tr1 s1 /\ run' s1 tr2 s'.
Proof.
  induction tr1 as [|e tr1 IH]; intros s s'; simpl.
  - split.
    + intros H. exists s. split; [constructor|assumption].
    + intros [s1 [H1 H2]]. inversion H1; subst. assumption.
  - split.
    + intros H. inversion H; subst.
      match goal with Hr : run _ _ _ _ (tr1 ++ tr2) _ |- _ =>
        apply IH in Hr; destruct Hr as [s2 [Ha Hb]] end.
      exists s2. split; [econstructor; eassumption|assumption].
    + intros [s1 [H1 H2]]. inversion H1; subst.
      econstructor; [eassumption|]. apply IH. eexists; split; eassumption.
Qed.

Lemma mark3_true (f : Z -> Z -> Z -> bool) (a b c x y z : Z) :
  mark3 f a b c x y z = true <-> (x = a /\ y = b /\ z = c) \/ f x y z = true.
Proof.
  unfold mark3. rewrite orb_true_iff, !andb_true_iff, !Z.eqb_eq. tauto.
Qed.

Lemma mark2_true (f : Z -> Z -> bool) (a b x y : Z) :
  mark2 f a b x y = true <-> (x = a /\ y = b) \/ f x y = true.
Proof.
  unfold mark2. rewrite orb_true_iff, !andb_true_iff, !Z.eqb_eq. tauto.
Qed.

Ltac state_simpl :=
  cbn [apply mem copied observed drained set_comm_buffer set_barrier
       set_local_output comm_buffer barrier local_output local_input
       buffer_meta plan_meta] in *.

Section Safety.

Variable m0 : Memory.
Variable tag : Z.

Hypothesis Htag : forall i,
  is_rank' i = true -> All2AllParams.barrier_flag (params i) = tag.
Hypothesis Hranks : forall j,
  is_rank' j = true -> All2AllParams.ranks_per_node (params j) = ranks.
Hypothesis Hsize : forall j,
  is_rank' j = true -> 0 < All2AllParams.elts_per_round (params j).
Hypothesis Hdisj : forall j i i' k,
  is_rank' j = true -> is_rank' i = true -> is_rank' i' = true ->
  slice' j i k = true -> slice' j i' k = true -> i = i'.

Local Abbreviation invariant' := (invariant ranks plans params m0 tag).

Lemma invariant_start :
  (forall j p r, is_rank' j = true -> is_rank' p = true ->
                 is_round' j r = true -> p <> j -> barrier m0 j p r <> tag) ->
  invariant' (start m0).
Proof.
  intros Hstale. unfold invariant, start. state_simpl.
  repeat split; try discriminate.
  intros j p r Hj Hp Hr Hne Hb. exfalso. apply (Hstale j p r); assumption.
Qed.

Lemma invariant_step (s : State) (e : event) (s' : State) :
  invariant' s -> step' s e s' -> invariant' s'.
Proof.
  intros (Hin & Hcp & Hfl & Hob & Hdr) [Hen ->].
  destruct e as [i0 j0 r0|i0 j0 r0|j0 p0 r0|j0 p0 r0|j0 r0];
    unfold enabled in Hen; rewrite ?andb_true_iff in Hen.
  - (* Copy *)
    destruct Hen as [[Hi0 Hj0] Hr0].
    unfold invariant. state_simpl. repeat split.
    + assumption.
    + intros i j r k Hc Hi Hj Hw Hs.
      destruct ((j =? j0) && window' j0 r0 k && slice' j0 i0 k) eqn:Ht.
      * rewrite !andb_true_iff, Z.eqb_eq in Ht.
        destruct Ht as [[-> Hw0] Hs0].
        assert (i = i0) as -> by (eapply Hdisj; eassumption).
        unfold source_elt. apply Hin.
      * apply mark3_true in Hc. destruct Hc as [(-> & -> & ->)|Hc].
        -- rewrite Z.eqb_refl, Hw, Hs in Ht. discriminate.
        -- eapply Hcp; eassumption.
    + intros j p r Hj Hp Hr Hne Hb. apply mark3_true. right.
      eapply Hfl; eassumption.
    + intros j p r Ho. apply mark3_true. right. apply Hob. assumption.
    + assumption.
  - (* Signal *)
    destruct Hen as [[[[Hi0 Hj0] Hr0] Hne0] Hc0].
    unfold invariant. state_simpl. repeat split; try assumption.
    intros j p r Hj Hp Hr Hne Hb.
    destruct ((j =? j0) && (p =? i0) && (r =? r0)) eqn:Ht.
    + rewrite !andb_true_iff, !Z.eqb_eq in Ht.
      destruct Ht as [[-> ->] ->]. assumption.
    + eapply Hfl; eassumption.
  - (* Spin *)
    unfold invariant. state_simpl. repeat split; assumption.
  - (* Observe *)
    destruct Hen as [[[[Hj0 Hp0] Hr0] Hne0] Hf0].
    unfold invariant. state_simpl. repeat split; try assumption.
    intros j p r Ho. apply mark3_true in Ho.
    destruct Ho as [(-> & -> & ->)|Ho]; [|apply Hob; assumption].
    unfold flag_ready in Hf0. apply Z.eqb_eq in Hf0.
    rewrite (Htag j0 Hj0) in Hf0.
    apply Hfl; try assumption.
    apply negb_true_iff, Z.eqb_neq in Hne0. assumption.
  - (* Drain *)
    destruct Hen as [[[Hj0 Hr0] Hc0] Hall].
    rewrite forallb_forall in Hall.
    unfold invariant. state_simpl. repeat split; try assumption.
    intros j r i k Hd Hi Hj Hw Hs.
    destruct ((j =? j0) && window' j0 r0 k) eqn:Ht.
    + rewrite andb_true_iff, Z.eqb_eq in Ht. destruct Ht as [-> Hw0].
      assert (r = r0) as ->
        by (eapply window_disjoint; [apply Hsize|..]; eassumption).
      apply (Hcp i j0 r0 k); try assumption.
      destruct (Z.eq_dec i j0) as [->|Hne]; [assumption|].
      apply Hob.
      assert (Hin' : In i (range (All2AllParams.ranks_per_node (params j0)))).
      { rewrite (Hranks j0 Hj0). apply in_range_iff, is_rank_iff. assumption. }
      specialize (Hall i Hin'). apply orb_true_iff in Hall.
      destruct Hall as [Heq|Ho]; [apply Z.eqb_eq in Heq; contradiction|].
      assumption.
    + apply mark2_true in Hd. destruct Hd as [(-> & ->)|Hd].
      * rewrite Z.eqb_refl, Hw in Ht. discriminate.
      * eapply Hdr; eassumption.
Qed.

Lemma invariant_run (tr : list event) :
  forall s s', invariant' s -> run' s tr s' -> invariant' s'.
Proof.
  induction tr as [|e tr IH]; intros s s' Hinv Hrun; inversion Hrun; subst.
  - assumption.
  - eapply IH; [|eassumption]. eapply invariant_step; eassumption.
Qed.

(** Once every round is drained, each source's elements sit at the planned
    offset of each destination. *)
Lemma invariant_delivers (s : State) :
  (forall j i, is_rank' j = true -> is_rank' i = true ->
     0 <= All2AllPlanParams.output_split_offsets (plans j) i
     /\ All2AllPlanParams.output_split_offsets (plans j) i
        + All2AllPlanParams.output_split_sizes (plans j) i
        <= All2AllParams.round_count (params j)
           * All2AllParams.elts_per_round (params j)) ->
  invariant' s -> complete' s ->
  forall i j x, is_rank' i = true -> is_rank' j = true ->
    0 <= x < All2AllPlanParams.output_split_sizes (plans j) i ->
    local_output (mem s) j
      (All2AllPlanParams.output_split_offsets (plans j) i + x)
    = local_input m0 i
        (All2AllPlanParams.input_split_offsets (plans i) j + x).
Proof.
  intros Hfit (_ & _ & _ & _ & Hdr) Hdone i j x Hi Hj Hx.
  destruct (Hfit j i Hj Hi) as [Hlo Hhi].
  set (k := All2AllPlanParams.output_split_offsets (plans j) i + x).
  destruct (window_of_position j k (Hsize j Hj)) as [Hr Hw];
    [unfold k; lia|].
  assert (Hs : slice' j i k = true) by (apply slice_iff; unfold k; lia).
  rewrite (Hdr j _ i k (Hdone j _ Hj Hr) Hi Hj Hw Hs).
  unfold source_elt, k. f_equal. lia.
Qed.

End Safety.

(** ** Exchange stage: what a trace records *)

Lemma observed_in_trace (tr : list event) :
  forall s s' j p r, run' s tr s' -> observed s' j p r = true ->
  observed s j p r = true \/ In (Observe j p r) tr.
Proof.
  induction tr as [|e tr IH]; intros s s' j p r Hrun Ho;
    inversion Hrun; subst; [left; assumption|].
  match goal with Hs : step _ _ _ _ _ _ |- _ => destruct Hs as [_ ->] end.
  match goal with Hr : run _ _ _ _ tr _ |- _ =>
    destruct (IH _ _ j p r Hr Ho) as [Hpre|Hin] end.
  - destruct e; state_simpl; try (left; assumption).
    apply mark3_true in Hpre. destruct Hpre as [(-> & -> & ->)|Hpre].
    + right. left. reflexivity.
    + left. assumption.
  - right. right. assumption.
Qed.

Lemma copied_in_trace (tr : list event) :
  forall s s' i j r, run' s tr s' -> copied s' i j r = true ->
  copied s i j r = true \/ In (Copy i j r) tr.
Proof.
  induction tr as [|e tr IH]; intros s s' i j r Hrun Hc;
    inversion Hrun; subst; [left; assumption|].
  match goal with Hs : step _ _ _ _ _ _ |- _ => destruct Hs as [_ ->] end.
  match goal with Hr : run _ _ _ _ tr _ |- _ =>
    destruct (IH _ _ i j r Hr Hc) as [Hpre|Hin] end.
  - destruct e; state_simpl; try (left; assumption).
    apply mark3_true in Hpre. destruct Hpre as [(-> & -> & ->)|Hpre].
    + right. left. reflexivity.
    + left. assumption.
  - right. right. assumption.
Qed.

(** A barrier cell changes only when its source rank signals it. *)
Lemma barrier_in_trace (tr : list event) :
  forall s s' j p r, run' s tr s' ->
  barrier (mem s') j p r = barrier (mem s) j p r \/ In (Signal p j r) tr.
Proof.
  induction tr as [|e tr IH]; intros s s' j p r Hrun;
    inversion Hrun; subst; [left; reflexivity|].
  match goal with Hs : step _ _ _ _ _ _ |- _ => destruct Hs as [_ ->] end.
  match goal with Hr : run _ _ _ _ tr _ |- _ =>
    destruct (IH _ _ j p r Hr) as [Hpre|Hin] end.
  - rewrite Hpre. destruct e; state_simpl; try (left; reflexivity).
    match goal with |- context [if ?c then _ else _] =>
      destruct c eqn:Ht end; [|left; reflexivity].
    rewrite !andb_true_iff, !Z.eqb_eq in Ht. destruct Ht as [[-> ->] ->].
    right. left. reflexivity.
  - right. right. assumption.
Qed.

(** The state in which an event of a trace fires. *)
Lemma run_at (tr1 tr2 : list event) (e : event) (s s' : State) :
  run' s (tr1 ++ e :: tr2) s' ->
  exists s1, run' s tr1 s1 /\ enabled' s1 e = true.
Proof.
  intros H. apply run_app in H. destruct H as [s1 [H1 H2]].
  exists s1. split; [assumption|]. inversion H2; subst.
  match goal with Hs : step _ _ _ _ _ _ |- _ => destruct Hs as [Hen _] end.
  assumption.
Qed.

(** A drain comes after the polls that found every peer's cell raised. *)
Lemma drain_after_observe (m : Memory) (tr1 tr2 : list event) (s : State)
  (j r p : Z) :
  run' (start m) (tr1 ++ Drain j r :: tr2) s ->
  0 <= p < All2AllParams.ranks_per_node (params j) -> p <> j ->
  exists a b sa,
    tr1 = a ++ Observe j p r :: b
    /\ run' (start m) a sa
    /\ flag_ready (barrier (mem sa) j p r)
                  (All2AllParams.barrier_flag (params j)) = true.
Proof.
  intros Hrun Hp Hne. destruct (run_at _ _ _ _ _ Hrun) as [s1 [H1 Hen]].
  unfold enabled in Hen. rewrite !andb_true_iff, forallb_forall in Hen.
  destruct Hen as [_ Hall].
  assert (Ho : observed s1 j p r = true).
  { specialize (Hall p (proj2 (in_range_iff _ _) Hp)).
    apply orb_true_iff in Hall. destruct Hall as [Heq|Ho]; [|assumption].
    apply Z.eqb_eq in Heq. contradiction. }
  destruct (observed_in_trace _ _ _ _ _ _ H1 Ho) as [Hpre|Hin];
    [discriminate|].
  apply in_split in Hin. destruct Hin as [a [b ->]].
  destruct (run_at _ _ _ _ _ H1) as [sa [Ha Hea]].
  exists a, b, sa. split; [reflexivity|]. split; [assumption|].
  unfold enabled in Hea. rewrite !andb_true_iff in Hea. tauto.
Qed.

(** A poll that finds a cell raised comes after the signal of this call,
    provided the cell did not hold the tag when the call started. *)
Lemma observe_after_signal (m : Memory) (tr1 tr2 : list event) (s : State)
  (j p r : Z) :
  barrier m j p r <> All2AllParams.barrier_flag (params j) ->
  run' (start m) (tr1 ++ Observe j p r :: tr2) s ->
  In (Signal p j r) tr1.
Proof.
  intros Hstale Hrun. destruct (run_at _ _ _ _ _ Hrun) as [s1 [H1 Hen]].
  unfold enabled in Hen. rewrite !andb_true_iff in Hen.
  destruct Hen as [_ Hf]. unfold flag_ready in Hf. apply Z.eqb_eq in Hf.
  destruct (barrier_in_trace _ _ _ j p r H1) as [Hsame|Hin];
    [|assumption].
  rewrite Hsame in Hf. contradiction.
Qed.

(** A signal comes after the copy it announces. *)
Lemma signal_after_copy (m : Memory) (tr1 tr2 : list event) (s : State)
  (i j r : Z) :
  run' (start m) (tr1 ++ Signal i j r :: tr2) s -> In (Copy i j r) tr1.
Proof.
  intros Hrun. destruct (run_at _ _ _ _ _ Hrun) as [s1 [H1 Hen]].
  unfold enabled in Hen. rewrite !andb_true_iff in Hen.
  destruct Hen as [_ Hc].
  destruct (copied_in_trace _ _ _ _ _ _ H1 Hc) as [Hpre|Hin];
    [discriminate|assumption].
Qed.

(** A copy for one round leaves the positions of every other round of the
    receive region as they were, and so does a drain for the output. *)
Lemma copy_keeps_other_rounds (s : State) (i j r r' d k : Z) :
  0 < All2AllParams.elts_per_round (params d) ->
  r <> r' -> window' d r k = true ->
  comm_buffer (mem (apply' (Copy i j r') s)) d k = comm_buffer (mem s) d k.
Proof.
  intros HE Hne Hw. state_simpl.
  destruct ((d =? j) && window' j r' k && slice' j i k) eqn:Ht;
    [|reflexivity].
  rewrite !andb_true_iff, Z.eqb_eq in Ht. destruct Ht as [[-> Hw'] _].
  exfalso. apply Hne. eapply window_disjoint; eassumption.
Qed.

Lemma drain_keeps_other_rounds (s : State) (j r r' d k : Z) :
  0 < All2AllParams.elts_per_round (params d) ->
  r <> r' -> window' d r k = true ->
  local_output (mem (apply' (Drain j r') s)) d k = local_output (mem s) d k.
Proof.
  intros HE Hne Hw. state_simpl.
  destruct ((d =? j) && window' j r' k) eqn:Ht; [|reflexivity].
  rewrite !andb_true_iff, Z.eqb_eq in Ht. destruct Ht as [-> Hw'].
  exfalso. apply Hne. eapply window_disjoint; eassumption.
Qed.

(** ** Exchange stage: the lockstep schedule runs to completion *)

Lemma exec_app (l1 l2 : list event) :
  forall s, exec' (l1 ++ l2) s
  = match exec' l1 s with Some s1 => exec' l2 s1 | None => None end.
Proof.
  induction l1 as [|e l1 IH]; intros s; simpl; [reflexivity|].
  destruct (enabled' s e); [apply IH|reflexivity].
Qed.

Lemma in_tasks (i j r : Z) :
  In (i, j, r) (tasks ranks params)
  <-> is_rank' i = true /\ is_rank' j = true /\ is_round' j r = true.
Proof.
  unfold tasks, rounds_of. rewrite in_flat_map, !is_rank_iff, is_round_iff.
  split.
  - intros [j' [Hj' H]]. apply in_flat_map in H. destruct H as [r' [Hr' H]].
    apply in_map_iff in H. destruct H as [i' [Heq Hi']].
    injection Heq as -> -> ->.
    apply in_range_iff in Hj', Hr', Hi'. auto.
  - intros (Hi & Hj & Hr). exists j. split; [apply in_range_iff, Hj|].
    apply in_flat_map. exists r. split; [apply in_range_iff, Hr|].
    apply in_map_iff. exists i. split; [reflexivity|apply in_range_iff, Hi].
Qed.

Lemma in_peer_tasks (i j r : Z) :
  In (i, j, r) (peer_tasks ranks params)
  <-> is_rank' i = true /\ is_rank' j = true /\ is_round' j r = true
      /\ i <> j.
Proof.
  unfold peer_tasks. rewrite filter_In, in_tasks, negb_true_iff, Z.eqb_neq.
  tauto.
Qed.

(** Running a list of events each of which is enabled under [P], keeps
    [P], and establishes a fact [Q] that later events of the list keep. *)
Lemma exec_phase (P : State -> Prop) (Q : event -> State -> Prop)
  (A : event -> Prop) :
  (forall s e, A e -> P s ->
     enabled' s e = true /\ P (apply' e s) /\ Q e (apply' e s)) ->
  (forall s e e', A e -> A e' -> P s -> Q e s -> Q e (apply' e' s)) ->
  forall l, (forall e, In e l -> A e) ->
  forall s, P s ->
  exists s', exec' l s = Some s' /\ P s'
             /\ (forall e, In e l -> Q e s')
             /\ (forall e, A e -> Q e s -> Q e s').
Proof.
  intros Hfire Hkeep. induction l as [|e l IH]; intros Hl s HP.
  - exists s. simpl. repeat split; auto. contradiction.
  - assert (HA : A e) by (apply Hl; left; reflexivity).
    destruct (Hfire s e HA HP) as (Hen & HP1 & HQ1).
    destruct (IH (fun e' H => Hl e' (or_intror H)) _ HP1)
      as (s' & Hex & HP' & HQ' & Hst).
    exists s'. simpl. rewrite Hen. repeat split; try assumption.
    + intros e' [<-|Hin]; [apply Hst; assumption|apply HQ'; assumption].
    + intros e0 HA0 HQ0. apply Hst; [assumption|].
      apply Hkeep; assumption.
Qed.

Section Liveness.

Variable tag : Z.

Hypothesis Htag : forall i,
  is_rank' i = true -> All2AllParams.barrier_flag (params i) = tag.
Hypothesis Hranks : forall j,
  is_rank' j = true -> All2AllParams.ranks_per_node (params j) = ranks.

Local Abbreviation all_copied := (all_copied ranks params).
Local Abbreviation all_raised := (all_raised ranks params tag).
Local Abbreviation all_observed := (all_observed ranks params).

Lemma copies_run (s : State) :
  exists s',
    exec' (map (fun t => match t with (i, j, r) => Copy i j r end)
               (tasks ranks params)) s = Some s'
    /\ all_copied s'.
Proof.
  destruct (exec_phase (fun _ => True)
              (fun e s => match e with
                          | Copy i j r => copied s i j r = true
                          | _ => True end)
              (fun e => exists i j r, e = Copy i j r
                          /\ In (i, j, r) (tasks ranks params)))
    with (l := map (fun t => match t with (i, j, r) => Copy i j r end)
                   (tasks ranks params)) (s := s)
    as (s' & Hex & _ & HQ & _).
  - intros s0 e (i & j & r & -> & Hin) _. apply in_tasks in Hin.
    destruct Hin as (Hi & Hj & Hr). unfold enabled. rewrite Hi, Hj, Hr.
    state_simpl. repeat split. apply mark3_true. left. auto.
  - intros s0 e e' (i & j & r & -> & _) (i' & j' & r' & -> & _) _ Hc.
    state_simpl. apply mark3_true. right. assumption.
  - intros e Hin. apply in_map_iff in Hin. destruct Hin as [[[i j] r] [<- Hin]].
    exists i, j, r. auto.
  - exact I.
  - exists s'. split; [assumption|]. intros i j r Hi Hj Hr.
    apply (HQ (Copy i j r)). apply in_map_iff. exists (i, j, r).
    split; [reflexivity|]. apply in_tasks. auto.
Qed.

Lemma signals_run (s : State) :
  all_copied s ->
  exists s',
    exec' (map (fun t => match t with (i, j, r) => Signal i j r end)
               (peer_tasks ranks params)) s = Some s'
    /\ all_copied s' /\ all_raised s'.
Proof.
  intros Hc.
  destruct (exec_phase all_copied
              (fun e s => match e with
                          | Signal i j r => barrier (mem s) j i r = tag
                          | _ => True end)
              (fun e => exists i j r, e = Signal i j r
                          /\ In (i, j, r) (peer_tasks ranks params)))
    with (l := map (fun t => match t with (i, j, r) => Signal i j r end)
                   (peer_tasks ranks params)) (s := s)
    as (s' & Hex & HP & HQ & _).
  - intros s0 e (i & j & r & -> & Hin) Hc0. apply in_peer_tasks in Hin.
    destruct Hin as (Hi & Hj & Hr & Hne). unfold enabled.
    rewrite Hi, Hj, Hr, (Hc0 i j r Hi Hj Hr).
    apply Z.eqb_neq in Hne. rewrite Hne. state_simpl. repeat split.
    + exact Hc0.
    + rewrite !Z.eqb_refl. simpl. apply Htag. assumption.
  - intros s0 e e' (i & j & r & -> & _) (i' & j' & r' & -> & Hin') _ Hb.
    apply in_peer_tasks in Hin'. destruct Hin' as (Hi' & _).
    state_simpl.
    destruct ((j =? j') && (i =? i') && (r =? r')); [|assumption].
    apply Htag. assumption.
  - intros e Hin. apply in_map_iff in Hin. destruct Hin as [[[i j] r] [<- Hin]].
    exists i, j, r. auto.
  - assumption.
  - exists s'. split; [assumption|]. split; [assumption|].
    intros i j r Hi Hj Hr Hne.
    apply (HQ (Signal i j r)). apply in_map_iff. exists (i, j, r).
    split; [reflexivity|]. apply in_peer_tasks. auto.
Qed.

Lemma observes_run (s : State) :
  all_copied s -> all_raised s ->
  exists s',
    exec' (map (fun t => match t with (i, j, r) => Observe j i r end)
               (peer_tasks ranks params)) s = Some s'
    /\ all_copied s' /\ all_observed s'.
Proof.
  intros Hc Hb.
  destruct (exec_phase (fun s => all_copied s /\ all_raised s)
              (fun e s => match e with
                          | Observe j i r => observed s j i r = true
                          | _ => True end)
              (fun e => exists i j r, e = Observe j i r
                          /\ In (i, j, r) (peer_tasks ranks params)))
    with (l := map (fun t => match t with (i, j, r) => Observe j i r end)
                   (peer_tasks ranks params)) (s := s)
    as (s' & Hex & [HP _] & HQ & _).
  - intros s0 e (i & j & r & -> & Hin) [Hc0 Hb0]. apply in_peer_tasks in Hin.
    destruct Hin as (Hi & Hj & Hr & Hne). unfold enabled, flag_ready.
    rewrite Hi, Hj, Hr, (Hb0 i j r Hi Hj Hr Hne), (Htag j Hj), Z.eqb_refl.
    apply Z.eqb_neq in Hne. rewrite Hne. state_simpl. repeat split.
    + exact Hc0.
    + exact Hb0.
    + apply mark3_true. left. auto.
  - intros s0 e e' (i & j & r & -> & _) (i' & j' & r' & -> & _) _ Ho.
    state_simpl. apply mark3_true. right. assumption.
  - intros e Hin. apply in_map_iff in Hin. destruct Hin as [[[i j] r] [<- Hin]].
    exists i, j, r. auto.
  - split; assumption.
  - exists s'. split; [assumption|]. split; [assumption|].
    intros i j r Hi Hj Hr Hne.
    apply (HQ (Observe j i r)). apply in_map_iff. exists (i, j, r).
    split; [reflexivity|]. apply in_peer_tasks. auto.
Qed.

Lemma drains_run (s : State) :
  all_copied s -> all_observed s ->
  exists s',
    exec' (flat_map (fun j => map (fun r => Drain j r) (rounds_of params j))
                    (range ranks)) s = Some s'
    /\ complete' s'.
Proof.
  intros Hc Ho.
  destruct (exec_phase (fun s => all_copied s /\ all_observed s)
              (fun e s => match e with
                          | Drain j r => drained s j r = true
                          | _ => True end)
              (fun e => exists j r, e = Drain j r
                          /\ is_rank' j = true /\ is_round' j r = true))
    with (l := flat_map (fun j => map (fun r => Drain j r)
                                      (rounds_of params j)) (range ranks))
         (s := s)
    as (s' & Hex & _ & HQ & _).
  - intros s0 e (j & r & -> & Hj & Hr) [Hc0 Ho0]. unfold enabled.
    rewrite Hj, Hr, (Hc0 j j r Hj Hj Hr). state_simpl.
    split; [|split; [split; assumption|apply mark2_true; left; auto]].
    simpl. apply forallb_forall. intros p Hp.
    rewrite (Hranks j Hj) in Hp. apply in_range_iff, is_rank_iff in Hp.
    destruct (Z.eq_dec p j) as [->|Hne].
    + rewrite Z.eqb_refl. reflexivity.
    + rewrite (Ho0 p j r Hp Hj Hr Hne). apply orb_true_r.
  - intros s0 e e' (j & r & -> & _) (j' & r' & -> & _) _ Hd.
    state_simpl. apply mark2_true. right. assumption.
  - intros e Hin. apply in_flat_map in Hin. destruct Hin as [j [Hj Hin]].
    apply in_map_iff in Hin. destruct Hin as [r [<- Hr]].
    exists j, r. split; [reflexivity|].
    apply in_range_iff in Hj, Hr. rewrite is_rank_iff, is_round_iff. auto.
  - split; assumption.
  - exists s'. split; [assumption|]. intros j r Hj Hr.
    apply (HQ (Drain j r)). apply in_flat_map. exists j.
    split; [apply in_range_iff, is_rank_iff, Hj|].
    apply in_map_iff. exists r. split; [reflexivity|].
    apply in_range_iff, is_round_iff, Hr.
Qed.

(** The lockstep schedule is an execution from any store, and it ends with
    every round drained. *)
Lemma lockstep_completes (m : Memory) :
  exists s, run' (start m) (lockstep ranks params) s /\ complete' s.
Proof.
  destruct (copies_run (start m)) as (s1 & H1 & Hc1).
  destruct (signals_run s1 Hc1) as (s2 & H2 & Hc2 & Hb2).
  destruct (observes_run s2 Hc2 Hb2) as (s3 & H3 & Hc3 & Ho3).
  destruct (drains_run s3 Hc3 Ho3) as (s4 & H4 & Hdone).
  exists s4. split; [|assumption]. apply exec_run.
  unfold lockstep.
  rewrite exec_app, H1. cbv beta iota.
  rewrite exec_app, H2. cbv beta iota.
  rewrite exec_app, H3. cbv beta iota. assumption.
Qed.

End Liveness.

End ExchangeFacts.

(** ** From the plan stage to the exchange stage *)

Section NodeFacts.

Variable MAX_RANKS_PER_NODE : Z.
Variable candidate : All2AllPlanParams.t -> All2AllParams.t.
Variable ranks : Z.
Variables requests plans : Z -> All2AllPlanParams.t.
Variable params : Z -> All2AllParams.t.
Variable g : Z.

Hypothesis Hnode :
  node_planned MAX_RANKS_PER_NODE candidate ranks requests plans params g.

Lemma node_resolved (j : Z) :
  0 <= j < ranks ->
  params j = scheduled (requests j) (candidate (requests j))
  /\ sizes_divide (params j) = true
  /\ plans j
     = All2AllPlanParams.set_split_offsets (requests j)
         (split_offsets (All2AllPlanParams.output_split_sizes (requests j))
            (All2AllPlanParams.output_split_offsets (requests j)) ranks)
         (split_offsets (All2AllPlanParams.input_split_sizes (requests j))
            (All2AllPlanParams.input_split_offsets (requests j)) ranks)
  /\ Zsum (map (All2AllPlanParams.output_split_sizes (requests j))
               (range ranks))
     = All2AllPlanParams.output_elts_total (requests j)
  /\ ranks <= MAX_RANKS_PER_NODE.
Proof.
  intros Hj. destruct (Hnode j Hj) as (Hn & _ & _ & _ & Hres).
  apply resolve_inr in Hres. rewrite Hn in Hres.
  destruct Hres as (Hmax & Ho & _ & Hs & Hp).
  apply make_schedule_inr in Hs. destruct Hs as (Ha & Hd & _).
  auto.
Qed.

Lemma node_tag (j : Z) :
  is_rank ranks j = true ->
  All2AllParams.barrier_flag (params j) = to_uint32 g.
Proof.
  intros Hj. apply is_rank_iff in Hj.
  destruct (node_resolved j Hj) as (-> & _).
  destruct (Hnode j Hj) as (_ & Hg & _). exact Hg.
Qed.

Lemma node_ranks (j : Z) :
  is_rank ranks j = true ->
  All2AllParams.ranks_per_node (params j) = ranks.
Proof.
  intros Hj. apply is_rank_iff in Hj.
  destruct (node_resolved j Hj) as (-> & _).
  destruct (Hnode j Hj) as (Hn & _). exact Hn.
Qed.

Lemma node_round_size (j : Z) :
  is_rank ranks j = true -> 0 < All2AllParams.elts_per_round (params j).
Proof.
  intros Hj. apply is_rank_iff in Hj.
  destruct (node_resolved j Hj) as (_ & Hd & _).
  apply sizes_divide_true in Hd. tauto.
Qed.

Lemma node_sizes (j i : Z) :
  0 <= j < ranks ->
  All2AllPlanParams.output_split_sizes (plans j) i
  = All2AllPlanParams.output_split_sizes (requests j) i.
Proof.
  intros Hj. destruct (node_resolved j Hj) as (_ & _ & -> & _). reflexivity.
Qed.

Lemma node_output_offsets (j i : Z) :
  0 <= j < ranks -> 0 <= i < ranks ->
  All2AllPlanParams.output_split_offsets (plans j) i
  = prefix_sum (All2AllPlanParams.output_split_sizes (requests j)) i.
Proof.
  intros Hj Hi. destruct (node_resolved j Hj) as (_ & _ & -> & _).
  cbn [All2AllPlanParams.output_split_offsets
       All2AllPlanParams.set_split_offsets].
  apply split_offsets_spec. assumption.
Qed.

Lemma node_input_offsets (j i : Z) :
  0 <= j < ranks -> 0 <= i < ranks ->
  All2AllPlanParams.input_split_offsets (plans j) i
  = prefix_sum (All2AllPlanParams.input_split_sizes (requests j)) i.
Proof.
  intros Hj Hi. destruct (node_resolved j Hj) as (_ & _ & -> & _).
  cbn [All2AllPlanParams.input_split_offsets
       All2AllPlanParams.set_split_offsets].
  apply split_offsets_spec. assumption.
Qed.

Lemma node_tiles (j : Z) :
  0 <= j < ranks ->
  All2AllParams.round_count (params j) * All2AllParams.elts_per_round (params j)
  = prefix_sum (All2AllPlanParams.output_split_sizes (requests j)) ranks.
Proof.
  intros Hj. destruct (Hnode j Hj) as (_ & _ & _ & _ & Hres).
  destruct (plan_rounds_tile _ _ _ _ _ Hres)
    as (Ht & Hto).
  destruct (node_resolved j Hj) as (_ & _ & _ & Hsum & _).
  unfold prefix_sum. rewrite Ht, Hto, Hsum. reflexivity.
Qed.

(** The parts of a receive region assigned to different sources do not
    overlap, and all of them lie inside the tiled rounds. *)
Lemma node_slices_disjoint (j i i' k : Z) :
  is_rank ranks j = true -> is_rank ranks i = true ->
  is_rank ranks i' = true ->
  slice plans j i k = true -> slice plans j i' k = true -> i = i'.
Proof.
  rewrite !is_rank_iff, !slice_iff. intros Hj Hi Hi'.
  rewrite !node_sizes, !node_output_offsets by assumption.
  destruct (Hnode j Hj) as (_ & _ & Hpos & _).
  intros H1 H2.
  pose proof (prefix_sum_succ
                (All2AllPlanParams.output_split_sizes (requests j)) i) as S1.
  pose proof (prefix_sum_succ
                (All2AllPlanParams.output_split_sizes (requests j)) i') as S2.
  destruct (Z.lt_trichotomy i i') as [Hlt|[Heq|Hgt]]; [|assumption|].
  - pose proof (prefix_sum_mono _ ranks Hpos (i + 1) i') as M. lia.
  - pose proof (prefix_sum_mono _ ranks Hpos (i' + 1) i) as M. lia.
Qed.

Lemma node_slices_fit (j i : Z) :
  is_rank ranks j = true -> is_rank ranks i = true ->
  0 <= All2AllPlanParams.output_split_offsets (plans j) i
  /\ All2AllPlanParams.output_split_offsets (plans j) i
     + All2AllPlanParams.output_split_sizes (plans j) i
     <= All2AllParams.round_count (params j)
        * All2AllParams.elts_per_round (params j).
Proof.
  rewrite !is_rank_iff. intros Hj Hi.
  rewrite node_sizes, node_output_offsets, node_tiles by assumption.
  destruct (Hnode j Hj) as (_ & _ & Hpos & _).
  pose proof (prefix_sum_succ
                (All2AllPlanParams.output_split_sizes (requests j)) i) as S1.
  pose proof (prefix_sum_mono _ ranks Hpos 0 i) as M0.
  pose proof (prefix_sum_mono _ ranks Hpos (i + 1) ranks) as M1.
  rewrite prefix_sum_0 in M0. lia.
Qed.

Lemma barrier_clear_stale (m0 : Memory) :
  barrier_clear ranks params m0 g ->
  forall j p r, is_rank ranks j = true -> is_rank ranks p = true ->
    is_round params j r = true -> p <> j ->
    barrier m0 j p r <> to_uint32 g.
Proof.
  intros Hclear j p r Hj Hp Hr Hne.
  apply is_rank_iff in Hj, Hp. apply is_round_iff in Hr.
  apply Hclear; assumption.
Qed.

Lemma node_invariant (m0 : Memory) (tr : list event) (s : State) :
  barrier_clear ranks params m0 g ->
  run ranks plans params (start m0) tr s ->
  invariant ranks plans params m0 (to_uint32 g) s.
Proof.
  intros Hclear Hrun.
  apply (invariant_run ranks plans params m0 (to_uint32 g)
           node_tag node_ranks node_round_size node_slices_disjoint
           tr (start m0) s); [|assumption].
  apply invariant_start. apply barrier_clear_stale. assumption.
Qed.

Lemma node_delivers (m0 : Memory) (tr : list event) (s : State) :
  barrier_clear ranks params m0 g ->
  run ranks plans params (start m0) tr s ->
  complete ranks params s ->
  forall i j x, 0 <= i < ranks -> 0 <= j < ranks ->
    0 <= x < All2AllPlanParams.input_split_sizes (requests i) j ->
    local_output (mem s) j
      (All2AllPlanParams.output_split_offsets (plans j) i + x)
    = local_input m0 i
        (All2AllPlanParams.input_split_offsets (plans i) j + x).
Proof.
  intros Hclear Hrun Hdone i j x Hi Hj Hx.
  apply (invariant_delivers ranks plans params m0 (to_uint32 g)
           node_round_size s node_slices_fit
           (node_invariant m0 tr s Hclear Hrun) Hdone);
    try (apply is_rank_iff; assumption).
  rewrite node_sizes by assumption.
  destruct (Hnode j Hj) as (_ & _ & _ & Hmatch & _).
  rewrite (Hmatch i Hi). assumption.
Qed.

Lemma node_completes (m0 : Memory) :
  exists s, run ranks plans params (start m0) (lockstep ranks params) s
            /\ complete ranks params s.
Proof.
  apply (lockstep_completes ranks plans params (to_uint32 g)
           node_tag node_ranks).
Qed.

Lemma node_poll_follows_signal (m0 : Memory) (tr1 tr2 : list event)
  (s : State) (j p r : Z) :
  barrier_clear ranks params m0 g ->
  run ranks plans params (start m0) (tr1 ++ Observe j p r :: tr2) s ->
  In (Signal p j r) tr1.
Proof.
  intros Hclear Hrun.
  destruct (run_at ranks plans params _ _ _ _ _ Hrun) as [s1 [_ Hen]].
  unfold enabled in Hen. rewrite !andb_true_iff in Hen.
  destruct Hen as [[[[Hj Hp] Hr] Hne] _].
  apply negb_true_iff, Z.eqb_neq in Hne.
  apply (observe_after_signal ranks plans params m0 tr1 tr2 s j p r);
    [|assumption].
  rewrite (node_tag j Hj). apply barrier_clear_stale; assumption.
Qed.

(** Before a round is drained, each peer's part was copied, then
    signalled, then found raised by the draining rank, in this order. *)
Lemma node_drain_chain (m0 : Memory) (tr1 tr2 : list event) (s : State)
  (j r p : Z) :
  barrier_clear ranks params m0 g ->
  run ranks plans params (start m0) (tr1 ++ Drain j r :: tr2) s ->
  0 <= p < ranks -> p <> j ->
  exists a1 a2 a3 a4,
    tr1 = a1 ++ Copy p j r :: a2 ++ Signal p j r :: a3
          ++ Observe j p r :: a4.
Proof.
  intros Hclear Hrun Hp Hne.
  destruct (run_at ranks plans params _ _ _ _ _ Hrun) as [s1 [H1 Hen]].
  unfold enabled in Hen. rewrite !andb_true_iff in Hen.
  destruct Hen as [[[Hj _] _] _].
  destruct (drain_after_observe ranks plans params m0 tr1 tr2 s j r p Hrun)
    as (a & a4 & sa & -> & Ha & _);
    [rewrite (node_ranks j Hj); assumption|assumption|].
  pose proof (node_poll_follows_signal m0 a a4 s1 j p r Hclear H1) as Hsig.
  apply in_split in Hsig. destruct Hsig as (a' & a3 & ->).
  pose proof (signal_after_copy ranks plans params m0 a' a3 sa p j r Ha)
    as Hcp.
  apply in_split in Hcp. destruct Hcp as (a1 & a2 & ->).
  exists a1, a2, a3, a4. repeat (rewrite <- app_assoc; simpl). reflexivity.
Qed.

End NodeFacts.

(** ** The concrete node *)

Lemma four_cases (j : Z) : 0 <= j < 4 -> j = 0 \/ j = 1 \/ j = 2 \/ j = 3.
Proof. lia. Qed.

Lemma scenario_planned :
  node_planned Scenario.max_ranks Scenario.choice 4 Scenario.request
               Scenario.plans Scenario.params 1.
Proof.
  intros j Hj. repeat split; try reflexivity; cbn; intros; lia.
Qed.

Lemma scenario_clear :
  barrier_clear 4 Scenario.params Scenario.memory 1.
Proof. intros j p r _ _ _ _. cbn. discriminate. Qed.

Lemma late_planned :
  node_planned Scenario.max_ranks Scenario.choice 4 Scenario.late_request
               Scenario.late_plans Scenario.late_params
               Scenario.late_generation.
Proof.
  intros j Hj. repeat split; try reflexivity; cbn; intros; lia.
Qed.

(** ** Exchange stage: delivered data *)


Lemma ten_cases (x : Z) :
  0 <= x < 10 ->
  x = 0 \/ x = 1 \/ x = 2 \/ x = 3 \/ x = 4 \/ x = 5 \/ x = 6 \/ x = 7
  \/ x = 8 \/ x = 9.
Proof. lia. Qed.


(** ** Generation tags *)

Lemma written_apart_clear (ranks : Z) (params : Z -> All2AllParams.t)
  (m0 : Memory) (g : Z) (written : Z -> Z -> Z -> Z) :
  round_cells_written ranks params m0 written ->
  written_apart ranks params written g ->
  barrier_clear ranks params m0 g.
Proof.
  intros Hcells Hapart j p r Hj Hp Hr Hne.
  rewrite (Hcells j p r Hj Hp Hr Hne). intros Heq.
  apply (Hapart j p r Hj Hp Hr Hne).
  apply to_uint32_eq_iff. symmetry. exact Heq.
Qed.


(** Publishing touches no round cell: the cells of the rounds still hold
    what the store held before the plan stage ran. *)
Lemma plan_keeps_round_cells (MAX_RANKS_PER_NODE : Z)
  (candidate : All2AllPlanParams.t -> All2AllParams.t)
  (p : All2AllPlanParams.t) (m : Memory) (j q r : Z) :
  0 <= r ->
  barrier (snd (plan MAX_RANKS_PER_NODE candidate p m)) j q r
  = barrier m j q r.
Proof.
  intros Hr. unfold plan.
  destruct (resolve MAX_RANKS_PER_NODE candidate p) as [e|[p' a]];
    [reflexivity|].
  unfold publish, publish_slot. cbn.
  assert (E : (r =? -1) = false) by (apply Z.eqb_neq; lia).
  rewrite E, andb_false_r. reflexivity.
Qed.

Lemma published_round_cells (j p r : Z) :
  0 <= r -> barrier Scenario.published_memory j p r = 0.
Proof.
  intros Hr. unfold Scenario.published_memory.
  change (range 4) with [0; 1; 2; 3]. cbn [fold_left].
  rewrite !plan_keeps_round_cells by assumption. reflexivity.
Qed.



(** In the same situation an exchange can complete with no peer data
    delivered: rank 2 drains position 30, planned for source rank 3, while
    rank 3 has copied nothing there. *)
Lemma wraparound_delivers_stale_data :
  exists s,
    run 4 Scenario.late_plans Scenario.late_params
        (start Scenario.stale_memory) Scenario.eager s
    /\ complete 4 Scenario.late_params s
    /\ All2AllPlanParams.output_split_offsets (Scenario.late_plans 2) 3 = 30
    /\ local_output (mem s) 2 30 = 0
    /\ local_input Scenario.stale_memory 3
         (All2AllPlanParams.input_split_offsets (Scenario.late_plans 3) 2)
       = 300.
Proof.
  exists (fold_left
            (fun s e => apply Scenario.late_plans Scenario.late_params e s)
            Scenario.eager (start Scenario.stale_memory)).
  split; [|split; [|repeat split]].
  - apply exec_run. vm_compute. reflexivity.
  - intros j r Hj Hr. apply is_rank_iff in Hj. apply is_round_iff in Hr.
    assert (HR : All2AllParams.round_count (Scenario.late_params j) = 2)
      by reflexivity.
    assert (Hr' : r = 0 \/ r = 1) by lia.
    destruct (four_cases j Hj) as [->|[->|[->| ->]]];
      destruct Hr' as [->| ->]; vm_compute; reflexivity.
Qed.

(** ** Ordering of rounds *)



(** ** A single rank *)

Lemma single_rank_no_poll (plans : Z -> All2AllPlanParams.t)
  (params : Z -> All2AllParams.t) (tr : list event) :
  forall s s', run 1 plans params s tr s' ->
  forall e, In e tr -> is_poll e = false.
Proof.
  induction tr as [|e0 tr IH]; intros s s' Hrun e Hin; [contradiction|].
  inversion Hrun; subst. destruct Hin as [<-|Hin]; [|eapply IH; eassumption].
  match goal with Hs : step _ _ _ _ _ _ |- _ => destruct Hs as [Hen _] end.
  destruct e0 as [i j r|i j r|j p r|j p r|j r]; try reflexivity;
    unfold enabled in Hen; rewrite !andb_true_iff in Hen;
    destruct Hen as [[[[Hj Hp] _] Hne] _];
    apply is_rank_iff in Hj, Hp;
    apply negb_true_iff, Z.eqb_neq in Hne; lia.
Qed.

(** C8. With a single rank, no execution ever polls a barrier cell, the
    exchange can run to completion, and a completed exchange has copied
    the rank's input buffer to its output buffer, element by element. *)
Theorem single_rank_exchange_is_local_copy
  (MAX_RANKS_PER_NODE : Z)
  (candidate : All2AllPlanParams.t -> All2AllParams.t)
  (requests plans : Z -> All2AllPlanParams.t) (params : Z -> All2AllParams.t)
  (g : Z) (m0 : Memory) :
  node_planned MAX_RANKS_PER_NODE candidate 1 requests plans params g ->
  (forall tr s,
     run 1 plans params (start m0) tr s ->
     forall e, In e tr -> is_poll e = false)
  /\ (exists s, run 1 plans params (start m0) (lockstep 1 params) s
                /\ complete 1 params s
                /\ forall e, In e (lockstep 1 params) -> is_poll e = false)
  /\ (forall tr s,
      run 1 plans params (start m0) tr s -> complete 1 params s ->
      forall k, 0 <= k < All2AllPlanParams.output_elts_total (requests 0) ->
        local_output (mem s) 0 k = local_input m0 0 k).
Proof.
  intros Hnode.
  assert (Hclear : barrier_clear 1 params m0 g)
    by (intros j p r Hj Hp _ Hne; lia).
  split; [|split].
  - intros tr s Hrun. eapply single_rank_no_poll; eassumption.
  - destruct (node_completes _ _ _ _ _ _ _ Hnode m0) as [s [Hrun Hdone]].
    exists s. split; [assumption|]. split; [assumption|].
    eapply single_rank_no_poll; eassumption.
  - intros tr s Hrun Hdone k Hk.
    assert (H0 : 0 <= 0 < 1) by lia.
    destruct (node_resolved _ _ _ _ _ _ _ Hnode 0 H0)
      as (_ & _ & _ & Hsum & _).
    destruct (Hnode 0 H0) as (_ & _ & _ & Hmatch & _).
    change (range 1) with [0] in Hsum. simpl in Hsum.
    pose proof (node_delivers _ _ _ _ _ _ _ Hnode m0 tr s Hclear Hrun Hdone
                  0 0 k H0 H0) as Hd.
    rewrite (node_output_offsets _ _ _ _ _ _ _ Hnode 0 0 H0 H0) in Hd.
    rewrite (node_input_offsets _ _ _ _ _ _ _ Hnode 0 0 H0 H0) in Hd.
    rewrite !prefix_sum_0 in Hd. simpl in Hd. apply Hd.
    rewrite <- (Hmatch 0 H0). lia.
Qed.

Lemma lone_planned :
  node_planned Scenario.max_ranks Scenario.choice 1
               (fun _ => Scenario.lone_request)
               (fun _ => fst Scenario.lone_resolved)
               (fun _ => snd Scenario.lone_resolved) 1.
Proof.
  intros j Hj. repeat split; try reflexivity; cbn; intros; lia.
Qed.

Lemma single_rank_exchange_is_local_copy_witness :
  node_planned Scenario.max_ranks Scenario.choice 1
               (fun _ => Scenario.lone_request)
               (fun _ => fst Scenario.lone_resolved)
               (fun _ => snd Scenario.lone_resolved) 1
  /\ forall tr s,
      run 1 (fun _ => fst Scenario.lone_resolved)
          (fun _ => snd Scenario.lone_resolved) (start Scenario.memory) tr s ->
      forall e, In e tr -> is_poll e = false.
Proof.
  split; [exact lone_planned|].
  exact (proj1 (single_rank_exchange_is_local_copy
                  Scenario.max_ranks Scenario.choice
                  (fun _ => Scenario.lone_request)
                  (fun _ => fst Scenario.lone_resolved)
                  (fun _ => snd Scenario.lone_resolved) 1 Scenario.memory
                  lone_planned)).
Defined.

(** * Marlin kernel instantiations *)

Lemma distinct_NoDup (l : list (Z * Z * Z * Z * bool * Z)) :
  Marlin.distinct l = true -> NoDup l.
Proof.
  induction l as [|x t IH]; intros H; [constructor|].
  cbn [Marlin.distinct] in H. apply andb_true_iff in H. destruct H as [Hx Ht].
  destruct (in_dec Marlin.shape_dec x t) as [Hin|Hnin]; [discriminate|].
  constructor; [assumption|apply IH; assumption].
Qed.

Lemma NoDup_of_map {A B : Type} (f : A -> B) (l : list A) :
  NoDup (map f l) -> NoDup l.
Proof.
  induction l as [|x t IH]; intros H; [constructor|].
  simpl in H. inversion H as [|y u Hnin Hnd]; subst.
  constructor; [|apply IH; assumption].
  intros Hin. apply Hnin. apply in_map. assumption.
Qed.

Ltac find_in_table :=
  repeat (first [left; reflexivity | right]).

(** One line of the file against the description of the family: the
    constant arguments, the group size, then the branch for one m-block or
    the branch for several. *)
Ltac check_line :=
  cbn; repeat split; try reflexivity;
  [ find_in_table
  | first
      [ left; split; [reflexivity|];
        first [left; repeat split; reflexivity
              |right; repeat split; reflexivity]
      | right; split; [lia|]; split; [reflexivity|];
        first [left; repeat split; reflexivity
              |right; repeat split; reflexivity] ] ].

(** X1. The file instantiates [Marlin] for exactly these argument lists: type
    [half], weight type [kU4], [pipe_stages] stages, no activation
    reordering, zero points that are not floats, a group size of -1, 2, 4
    or 8 blocks, and either one m-block (with or without the 8-row variant)
    on 256 threads with 8 by 8 blocks or 128 threads with 8 by 4 blocks, or
    two to four m-blocks without the 8-row variant on 256 threads with 16
    by 4 blocks or 128 threads with 8 by 4 blocks. *)
Theorem kernel_fp16_ku4_instantiations (kU4_id pipe_stages : Z)
  (c : Marlin.instantiation) :
  In c (Marlin.kernel_fp16_ku4 kU4_id pipe_stages)
  <-> Marlin.scalar_t c = Marlin.half
      /\ Marlin.w_type_id c = kU4_id
      /\ Marlin.stages c = pipe_stages
      /\ Marlin.has_act_order c = false
      /\ Marlin.has_zp c = true
      /\ Marlin.is_zp_float c = false
      /\ In (Marlin.group_blocks c) [-1; 2; 4; 8]
      /\ ((Marlin.thread_m_blocks c = 1
           /\ ((Marlin.threads c = 256 /\ Marlin.thread_n_blocks c = 8
                /\ Marlin.thread_k_blocks c = 8)
               \/ (Marlin.threads c = 128 /\ Marlin.thread_n_blocks c = 8
                   /\ Marlin.thread_k_blocks c = 4)))
          \/ (2 <= Marlin.thread_m_blocks c <= 4
              /\ Marlin.m_block_size_8 c = false
              /\ ((Marlin.threads c = 256 /\ Marlin.thread_n_blocks c = 16
                   /\ Marlin.thread_k_blocks c = 4)
                  \/ (Marlin.threads c = 128 /\ Marlin.thread_n_blocks c = 8
                      /\ Marlin.thread_k_blocks c = 4)))).
Proof.
  split.
  - intros H. unfold Marlin.kernel_fp16_ku4 in H.
    repeat (destruct H as [<-|H]; [check_line|]).
    contradiction.
  - destruct c as [s w t m n k m8 st ao zp gb zf]. cbn.
    intros (Hs & -> & -> & -> & -> & -> & Hgb & Hshape).
    destruct s.
    assert (Hm : forall x, 2 <= x <= 4 -> x = 2 \/ x = 3 \/ x = 4) by (intros; lia).
    destruct Hgb as [<-|[<-|[<-|[<-|[]]]]];
      destruct Hshape as [[-> [(-> & -> & ->)|(-> & -> & ->)]]
                         |(Hr & -> & [(-> & -> & ->)|(-> & -> & ->)])];
      try (destruct (Hm m Hr) as [->|[->| ->]]); try destruct m8;
      unfold Marlin.kernel_fp16_ku4; find_in_table.
Qed.

(** X2. No argument list is instantiated twice. *)
Theorem kernel_fp16_ku4_no_duplicate (kU4_id pipe_stages : Z) :
  NoDup (Marlin.kernel_fp16_ku4 kU4_id pipe_stages).
Proof.
  apply (NoDup_of_map Marlin.shape). apply distinct_NoDup.
  vm_compute. reflexivity.
Qed.

(** X3. Every instantiated kernel runs four threads per pair of n and k
    blocks, has one to four m-blocks, and uses the 8-row variant only with
    a single m-block. *)
Theorem kernel_fp16_ku4_geometry (kU4_id pipe_stages : Z)
  (c : Marlin.instantiation) :
  In c (Marlin.kernel_fp16_ku4 kU4_id pipe_stages) ->
  Marlin.threads c
  = 4 * Marlin.thread_n_blocks c * Marlin.thread_k_blocks c
  /\ 1 <= Marlin.thread_m_blocks c <= 4
  /\ (Marlin.m_block_size_8 c = true -> Marlin.thread_m_blocks c = 1).
Proof.
  intros H. unfold Marlin.kernel_fp16_ku4 in H.
  repeat (destruct H as [<-|H];
          [cbn; split; [reflexivity|];
           split; [lia|]; first [reflexivity | discriminate]|]).
  contradiction.
Qed.

Lemma kernel_fp16_ku4_geometry_witness :
  In (Marlin.mk Marlin.half 0 256 1 8 8 true 4 false true (-1) false)
     (Marlin.kernel_fp16_ku4 0 4)
  /\ 256 = 4 * 8 * 8 /\ 1 <= 1 <= 4 /\ (true = true -> 1 = 1).
Proof.
  assert (H : In (Marlin.mk Marlin.half 0 256 1 8 8 true 4 false true (-1)
                            false)
                 (Marlin.kernel_fp16_ku4 0 4)) by (left; reflexivity).
  split; [exact H|].
  exact (kernel_fp16_ku4_geometry 0 4 _ H).
Defined.

(** * Stored generation tags *)

(** X4. Two different generations less than [2^32] apart are stored as
    different tags, in both parameter blocks. *)
Theorem barrier_flag_distinct_within_window
  (a : All2AllParams.t) (p : All2AllPlanParams.t) (g g' : Z) :
  g <> g' -> - 2 ^ 32 < g - g' < 2 ^ 32 ->
  All2AllParams.barrier_flag (All2AllParams.set_barrier_flag a g)
  <> All2AllParams.barrier_flag (All2AllParams.set_barrier_flag a g')
  /\ All2AllPlanParams.barrier_flag (All2AllPlanParams.set_barrier_flag p g)
     <> All2AllPlanParams.barrier_flag
          (All2AllPlanParams.set_barrier_flag p g').
Proof.
  intros Hne Hwin.
  assert (H : to_uint32 g <> to_uint32 g').
  { intros Heq. apply to_uint32_eq_iff in Heq.
    apply Z.mod_divide in Heq; [|lia]. destruct Heq as [q Hq]. lia. }
  split; exact H.
Qed.

Lemma barrier_flag_distinct_within_window_witness :
  (2 ^ 32 - 1 <> 2 ^ 32 /\ - 2 ^ 32 < (2 ^ 32 - 1) - 2 ^ 32 < 2 ^ 32)
  /\ All2AllParams.barrier_flag
       (All2AllParams.set_barrier_flag (Scenario.params 0) (2 ^ 32 - 1))
     <> All2AllParams.barrier_flag
          (All2AllParams.set_barrier_flag (Scenario.params 0) (2 ^ 32))
  /\ All2AllPlanParams.barrier_flag
       (All2AllPlanParams.set_barrier_flag (Scenario.request 0) (2 ^ 32 - 1))
     <> All2AllPlanParams.barrier_flag
          (All2AllPlanParams.set_barrier_flag (Scenario.request 0) (2 ^ 32)).
Proof.
  assert (H1 : 2 ^ 32 - 1 <> 2 ^ 32) by (vm_compute; discriminate).
  assert (H2 : - 2 ^ 32 < (2 ^ 32 - 1) - 2 ^ 32 < 2 ^ 32)
    by (vm_compute; split; reflexivity).
  split; [exact (conj H1 H2)|].
  exact (barrier_flag_distinct_within_window
           (Scenario.params 0) (Scenario.request 0) (2 ^ 32 - 1) (2 ^ 32)
           H1 H2).
Defined.

(** X5. A generation is stored unchanged exactly when it lies in
    [0, 2^32), in both parameter blocks, and storing a stored tag again
    changes nothing. *)
Theorem barrier_flag_round_trip
  (a : All2AllParams.t) (p : All2AllPlanParams.t) (g : Z) :
  (All2AllParams.barrier_flag (All2AllParams.set_barrier_flag a g) = g
   <-> is_uint32 g)
  /\ (All2AllPlanParams.barrier_flag (All2AllPlanParams.set_barrier_flag p g)
      = g <-> is_uint32 g)
  /\ All2AllParams.set_barrier_flag a
       (All2AllParams.barrier_flag (All2AllParams.set_barrier_flag a g))
     = All2AllParams.set_barrier_flag a g
  /\ All2AllPlanParams.set_barrier_flag p
       (All2AllPlanParams.barrier_flag
          (All2AllPlanParams.set_barrier_flag p g))
     = All2AllPlanParams.set_barrier_flag p g.
Proof.
  assert (Hiff : to_uint32 g = g <-> is_uint32 g).
  { split.
    - intros <-. apply to_uint32_range.
    - intros H. apply Z.mod_small. exact H. }
  assert (Hidem : to_uint32 (to_uint32 g) = to_uint32 g).
  { apply Z.mod_small. apply to_uint32_range. }
  split; [exact Hiff|]. split; [exact Hiff|].
  unfold All2AllParams.set_barrier_flag, All2AllPlanParams.set_barrier_flag.
  cbn. rewrite Hidem. split; reflexivity.
Qed.
